(** * Dashboard query layer ([src/app/lib/data.ts])

    A shallow embedding of the data-access helpers of the dashboard and the
    properties of their in-memory post-processing (deduplication, sums,
    pagination arithmetic, text filtering, per-customer aggregation).

    Modelling conventions.
    - A JavaScript [number] that only takes part in integer arithmetic
      (amounts in minor currency units, page numbers, counts) is a [Z]; where
      the source divides ([/ 100], [/ ITEMS_PER_PAGE]) the quotient is the
      exact rational in [Q], of which the IEEE double is the rounding.
    - A JavaScript string is a [string]; [toLowerCase] acts on the ASCII
      letters.
    - [null] / [undefined] are [None].
    - The query client is an explicit argument: a function from the request a
      reader builds to the settled promise the client hands back.  Readers run
      in a small monad that threads the client, records the requests and
      console output, and carries thrown exceptions. *)

From Stdlib Require Import ZArith QArith Qround String Ascii List Bool Lia.
From Stdlib Require Import DecimalString.
From stdpp Require Import base decidable option list gmap strings.

Local Open Scope string_scope.
Local Open Scope Z_scope.
Local Open Scope list_scope.

(** ** JavaScript string helpers *)

Module Js.

(** [c.toLowerCase()] on one ASCII character: 'A'..'Z' move to 'a'..'z'. *)
Definition lower_ascii (c : ascii) : ascii :=
  let n := N_of_ascii c in
  if ((65 <=? n) && (n <=? 90))%N then ascii_of_N (n + 32) else c.

(** [s.toLowerCase()] *)
Fixpoint toLowerCase (s : string) : string :=
  match s with
  | EmptyString => EmptyString
  | String c s' => String (lower_ascii c) (toLowerCase s')
  end.

(** [s.includes(sub)]: [sub] occurs in [s] as a contiguous substring. *)
Fixpoint includes (s sub : string) : bool :=
  String.prefix sub s ||
  match s with
  | EmptyString => false
  | String _ s' => includes s' sub
  end.

(** [n.toString()] for an integer-valued number: decimal digits, with a
    leading minus sign for negatives. *)
Definition toString (n : Z) : string :=
  NilZero.string_of_int (Z.to_int n).

(** Truthiness of a string value: every string but the empty one. *)
Definition truthy (s : string) : bool :=
  negb (String.eqb s "").

(** [a ?? b] *)
Definition nullish {A : Type} (a : option A) (b : A) : A :=
  match a with
  | Some x => x
  | None => b
  end.

End Js.

Notation "a ?? b" := (Js.nullish a b) (at level 45, left associativity).

(** ** Rows as the backend returns them *)

(** A joined relation comes back as [null], as one object or as an array. *)
Inductive joined (A : Type) : Type :=
| JoinNull
| JoinOne (x : A)
| JoinMany (xs : list A).
Arguments JoinNull {A}.
Arguments JoinOne {A} x.
Arguments JoinMany {A} xs.

(** [Array.isArray(j) ? j[0] : j] *)
Definition first_joined {A : Type} (j : joined A) : option A :=
  match j with
  | JoinNull => None
  | JoinOne x => Some x
  | JoinMany xs => head xs
  end.

Record Revenue : Type := mkRevenue
  { rev_month : string;
    rev_revenue : Z }.

(** [customer_id(id, name, image_url, email)] of the latest-invoices read. *)
Record CustomerRef : Type := mkCustomerRef
  { cr_id : option string;
    cr_name : option string;
    cr_image_url : option string;
    cr_email : option string }.

Record LatestInvoiceRaw : Type := mkLatestInvoiceRaw
  { lir_id : string;
    lir_amount : Z;
    lir_date : string;
    lir_customer_id : joined CustomerRef }.

Record LatestInvoice : Type := mkLatestInvoice
  { li_id : string;
    li_amount : string;
    li_name : string;
    li_image_url : string;
    li_email : string }.

Record AmountStatus : Type := mkAmountStatus
  { as_amount : Z;
    as_status : string }.

Record CardData : Type := mkCardData
  { totalPaidInvoices : Z;
    totalPendingInvoices : Z;
    numberOfInvoices : Z;
    numberOfCustomers : Z }.

(** [customers(name, email, image_url)] of the filtered-invoices read. *)
Record CustomerInfo : Type := mkCustomerInfo
  { ci_name : option string;
    ci_email : option string;
    ci_image_url : option string }.

Record InvoiceRaw : Type := mkInvoiceRaw
  { ir_id : string;
    ir_amount : Z;
    ir_date : string;
    ir_status : string;
    ir_customers : joined CustomerInfo }.

Record InvoicesTable : Type := mkInvoicesTable
  { it_id : string;
    it_amount : Z;
    it_date : string;
    it_status : string;
    it_name : string;
    it_email : string;
    it_image_url : string }.

Record InvoiceRow : Type := mkInvoiceRow
  { iv_id : string;
    iv_customer_id : string;
    iv_amount : Z;
    iv_status : string }.

Record InvoiceForm : Type := mkInvoiceForm
  { if_id : string;
    if_customer_id : string;
    if_amount : Q;
    if_status : string }.

Record CustomerField : Type := mkCustomerField
  { cf_id : string;
    cf_name : string }.

Record Customer : Type := mkCustomer
  { c_id : string;
    c_name : string;
    c_email : string;
    c_image_url : string }.

Record CustomerInvoice : Type := mkCustomerInvoice
  { cinv_customer_id : string;
    cinv_amount : Z;
    cinv_status : string }.

Record CustomersTableType : Type := mkCustomersTableType
  { ct_id : string;
    ct_name : string;
    ct_email : string;
    ct_image_url : string;
    ct_total_invoices : Z;
    ct_total_pending : string;
    ct_total_paid : string }.

(** ** The query client *)

(** The error value of a failed read (its message). *)
Definition db_error : Type := string.

(** What a resolved query destructures into: [{ data, error, count }]. *)
Record response (A : Type) : Type := mkResponse
  { data : option A;
    error : option db_error;
    count : option Z }.
Arguments mkResponse {A} data error count.
Arguments data {A} r.
Arguments error {A} r.
Arguments count {A} r.

(** The reads the layer builds, with the arguments that vary. *)
Inductive request : Type :=
| RevenueAll
    (* from('revenue').select('*') *)
| InvoicesLatest (limit : Z)
    (* from('invoices').select(.., customer_id(..)).order('date', desc).limit(limit) *)
| InvoicesAmountStatus
    (* from('invoices').select('amount, status') *)
| CustomersHeadCount
    (* from('customers').select('id', { count: 'exact', head: true }) *)
| InvoicesRange (pattern : string) (from to : Z)
    (* from('invoices').select(.., customers(..)).ilike('customers.name', pattern)
       .order('date', desc).range(from, to) *)
| InvoicesHeadCount (pattern : string)
    (* from('invoices').select(.., { count: 'exact', head: true })
       .ilike('customers.name', pattern) *)
| InvoiceSingle (id : string)
    (* from('invoices').select('id, customer_id, amount, status').eq('id', id).single() *)
| CustomersByName
    (* from('customers').select('id, name').order('name', asc) *)
| CustomersMatching (filters : string)
    (* from('customers').select('id, name, email, image_url').or(filters).order('name', asc) *)
| InvoicesOfCustomers (customerIds : list string).
    (* from('invoices').select('customer_id, amount, status').in('customer_id', customerIds) *)

(** The type of [data] each read carries. *)
Definition payload (r : request) : Type :=
  match r with
  | RevenueAll => list Revenue
  | InvoicesLatest _ => list LatestInvoiceRaw
  | InvoicesAmountStatus => list AmountStatus
  | CustomersHeadCount => unit
  | InvoicesRange _ _ _ => list InvoiceRaw
  | InvoicesHeadCount _ => unit
  | InvoiceSingle _ => InvoiceRow
  | CustomersByName => list CustomerField
  | CustomersMatching _ => list Customer
  | InvoicesOfCustomers _ => list CustomerInvoice
  end.

(** An awaited promise either resolves to a response or rejects. *)
Inductive settled (A : Type) : Type :=
| Resolved (r : response A)
| Rejected (cause : db_error).
Arguments Resolved {A} r.
Arguments Rejected {A} cause.

Definition client : Type := forall r : request, settled (payload r).

(** ** Exceptions, console output and the reader monad *)

Inductive exn : Type :=
| Error (message : string)      (* new Error(message) *)
| TypeError                     (* using null where an array is required *)
| Rejection (cause : db_error). (* the reason of a rejected promise *)

(** The second argument of [console.error]: the error value of a response,
    or the exception a [catch] clause received. *)
Inductive logged : Type :=
| ErrorValue (e : db_error)
| Caught (e : exn).

Inductive event : Type :=
| Query (r : request)
| Sleep (ms : Z)
| ConsoleLog (label : string)
| ConsoleError (label : string) (cause : logged).

Inductive outcome (A : Type) : Type :=
| Return (a : A)
| Throw (e : exn).
Arguments Return {A} a.
Arguments Throw {A} e.

Definition Eff (A : Type) : Type := client -> list event * outcome A.

Definition ret {A : Type} (a : A) : Eff A :=
  fun _ => ([], Return a).

Definition bind {A B : Type} (m : Eff A) (k : A -> Eff B) : Eff B :=
  fun c =>
    match m c with
    | (t1, Return a) => let (t2, o) := k a c in (t1 ++ t2, o)
    | (t1, Throw e) => (t1, Throw e)
    end.

Definition throw {A : Type} (e : exn) : Eff A :=
  fun _ => ([], Throw e).

Definition try_catch {A : Type} (m : Eff A) (handler : exn -> Eff A) : Eff A :=
  fun c =>
    match m c with
    | (t1, Return a) => (t1, Return a)
    | (t1, Throw e) => let (t2, o) := handler e c in (t1 ++ t2, o)
    end.

Definition emit (ev : event) : Eff unit :=
  fun _ => ([ev], Return tt).

(** [await supabase.<query>]: the request goes out; a rejection is thrown. *)
Definition await (r : request) : Eff (response (payload r)) :=
  fun c =>
    ([Query r],
     match c r with
     | Resolved x => Return x
     | Rejected cause => Throw (Rejection cause)
     end).

Notation "'let!' x ':=' m 'in' k" := (bind m (fun x => k))
  (at level 10, x name, m at level 100, k at level 200).
Notation "'do!' m 'in' k" := (bind m (fun _ => k))
  (at level 10, m at level 100, k at level 200).

Definition console_log (label : string) : Eff unit := emit (ConsoleLog label).
Definition console_error (label : string) (cause : logged) : Eff unit :=
  emit (ConsoleError label cause).

(** What the caller observes, and what went out on the way. *)
Definition result {A : Type} (r : list event * outcome A) : outcome A := snd r.
Definition trace {A : Type} (r : list event * outcome A) : list event := fst r.
Definition queries {A : Type} (r : list event * outcome A) : list request :=
  omap (fun ev => match ev with Query q => Some q | _ => None end) (trace r).

(** [array.map(f)] with a callback that may throw. *)
Fixpoint map_eff {A B : Type} (f : A -> Eff B) (l : list A) : Eff (list B) :=
  match l with
  | [] => ret []
  | x :: l' =>
      let! y := f x in
      let! ys := map_eff f l' in
      ret (y :: ys)
  end.

(** [Math.ceil] of an exact quotient. *)
Definition Math_ceil (q : Q) : Z := Qceiling q.

(** ** The readers *)

Definition ITEMS_PER_PAGE : Z := 6.

Definition fetchRevenue : Eff (option (list Revenue)) :=
  try_catch
    (do! console_log "Fetching revenue data..." in
     do! emit (Sleep 3000) in
     let! r := await RevenueAll in
     match error r with
     | Some e =>
         do! console_error "Database Error:" (ErrorValue e) in
         throw (Error "Failed to fetch revenue data.")
     | None =>
         do! console_log "Data fetch completed after 3 seconds." in
         do! console_log "RAW DATA:" in
         ret (data r)
     end)
    (fun error =>
       do! console_error "Database Error:" (Caught error) in
       throw (Error "Failed to fetch revenue data.")).

(** [customer?.id] of the customer joined to an invoice. *)
Definition customerId_of (invoice : LatestInvoiceRaw) : option string :=
  first_joined (lir_customer_id invoice) ≫= cr_id.

(** One turn of the deduplication loop over [(seen, latestByCustomer)]. *)
Definition latest_step (st : gset string * list LatestInvoiceRaw)
    (invoice : LatestInvoiceRaw) : gset string * list LatestInvoiceRaw :=
  let (seen, latestByCustomer) := st in
  match customerId_of invoice with
  | Some customerId =>
      if Js.truthy customerId && negb (bool_decide (customerId ∈ seen))
      then (seen ∪ {[customerId]}, latestByCustomer ++ [invoice])
      else st
  | None => st
  end.

Definition latestByCustomer (data : list LatestInvoiceRaw) : list LatestInvoiceRaw :=
  snd (fold_left latest_step data (∅, [])).

(** One turn of the summing loop over [(totalPaidInvoices, totalPendingInvoices)]. *)
Definition card_step (totals : Z * Z) (invoice : AmountStatus) : Z * Z :=
  let (totalPaid, totalPending) := totals in
  if String.eqb (as_status invoice) "paid"
  then (totalPaid + as_amount invoice, totalPending)
  else if String.eqb (as_status invoice) "pending"
  then (totalPaid, totalPending + as_amount invoice)
  else totals.

Definition fetchCardData : Eff CardData :=
  let! r := await InvoicesAmountStatus in
  match error r with
  | Some e =>
      do! console_error "Database Error:" (ErrorValue e) in
      throw (Error "Failed to fetch card data.")
  | None =>
      let '(totalPaid, totalPending, number) :=
        match data r with
        | Some d => (fold_left card_step d (0, 0), Z.of_nat (length d))
        | None => (0, 0, 0)
        end in
      let! rc := await CustomersHeadCount in
      match error rc with
      | Some customerError =>
          do! console_error "Database Error:" (ErrorValue customerError) in
          throw (Error "Failed to fetch customer count.")
      | None =>
          ret {| totalPaidInvoices := totalPaid;
                 totalPendingInvoices := totalPending;
                 numberOfInvoices := number;
                 numberOfCustomers := count rc ?? 0 |}
      end
  end.

(** The flattening [.map] of the filtered-invoices reader. *)
Definition flatten_invoice (invoice : InvoiceRaw) : InvoicesTable :=
  let customer := first_joined (ir_customers invoice) in
  {| it_id := ir_id invoice;
     it_amount := ir_amount invoice;
     it_date := ir_date invoice;
     it_status := ir_status invoice;
     it_name := (customer ≫= ci_name) ?? "";
     it_email := (customer ≫= ci_email) ?? "";
     it_image_url := (customer ≫= ci_image_url) ?? "" |}.

(** The predicate of the client-side [.filter]. *)
Definition matches_query (query : string) (invoice : InvoicesTable) : bool :=
  Js.includes (Js.toLowerCase (it_email invoice)) (Js.toLowerCase query) ||
  Js.includes (Js.toString (it_amount invoice)) query ||
  Js.includes (it_date invoice) query ||
  Js.includes (Js.toLowerCase (it_status invoice)) query ||
  Js.includes (Js.toLowerCase (it_name invoice)) query.

Definition fetchFilteredInvoices (query : string) (currentPage : Z)
  : Eff (list InvoicesTable) :=
  let from := (currentPage - 1) * ITEMS_PER_PAGE in
  let to := from + ITEMS_PER_PAGE - 1 in
  let! r := await (InvoicesRange ("%" +:+ query +:+ "%") from to) in
  match error r with
  | Some e =>
      do! console_error "Database Error:" (ErrorValue e) in
      throw (Error "Failed to fetch invoices.")
  | None =>
      ret (List.filter (matches_query query) (map flatten_invoice (data r ?? [])))
  end.

Definition fetchInvoicesPages (query : string) : Eff Z :=
  let! r := await (InvoicesHeadCount ("%" +:+ query +:+ "%")) in
  match error r with
  | Some e =>
      do! console_error "Database Error:" (ErrorValue e) in
      throw (Error "Failed to fetch total number of invoices.")
  | None =>
      let totalPages :=
        Math_ceil (inject_Z (count r ?? 0%Z) / inject_Z ITEMS_PER_PAGE)%Q in
      ret totalPages
  end.

Definition fetchInvoiceById (id : string) : Eff (option InvoiceForm) :=
  try_catch
    (let! r := await (InvoiceSingle id) in
     match data r with
     | None => ret None
     | Some d =>
         ret (Some {| if_id := iv_id d;
                      if_customer_id := iv_customer_id d;
                      if_amount := (inject_Z (iv_amount d) / 100)%Q;
                      if_status := iv_status d |})
     end)
    (fun error =>
       do! console_error "Error fetching invoice:" (Caught error) in
       throw (Error "Failed to fetch invoice.")).

Definition fetchCustomers : Eff (option (list CustomerField)) :=
  let! r := await CustomersByName in
  match error r with
  | Some e =>
      do! console_error "Database Error:" (ErrorValue e) in
      throw (Error "Failed to fetch all customers.")
  | None => ret (data r)
  end.

Section Formatting.

(** [formatCurrency] of [./utils]: renders an amount in minor units. *)
Variable formatCurrency : Z -> string.

(** The shaping [.map] of the latest-invoices reader. *)
Definition shape_latest (invoice : LatestInvoiceRaw) : LatestInvoice :=
  let customer := first_joined (lir_customer_id invoice) in
  {| li_id := lir_id invoice;
     li_amount := formatCurrency (lir_amount invoice);
     li_name := (customer ≫= cr_name) ?? "";
     li_image_url := (customer ≫= cr_image_url) ?? "";
     li_email := (customer ≫= cr_email) ?? "" |}.

Definition fetchLatestInvoices : Eff (list LatestInvoice) :=
  let! r := await (InvoicesLatest 100) in
  match error r with
  | Some e =>
      do! console_error "Database Error:" (ErrorValue e) in
      throw (Error "Failed to fetch the latest invoices.")
  | None =>
      match data r with
      | None => throw TypeError
      | Some d =>
          let latestInvoices := map shape_latest (latestByCustomer d) in
          do! console_log "latestInvoices:" in
          ret latestInvoices
      end
  end.

(** [xs.reduce((sum, inv) => sum + inv.amount, 0)] *)
Definition reduce_amount (xs : list CustomerInvoice) : Z :=
  fold_left (fun sum inv => sum + cinv_amount inv) xs 0.

(** The callback of [customers.map] in the filtered-customers reader. *)
Definition aggregate_customer (invoices : option (list CustomerInvoice))
    (customer : Customer) : Eff CustomersTableType :=
  match invoices with
  | None => throw TypeError
  | Some invoices =>
      let custInvoices :=
        List.filter (fun inv => String.eqb (cinv_customer_id inv) (c_id customer))
          invoices in
      let total_invoices := Z.of_nat (length custInvoices) in
      let total_pending :=
        reduce_amount
          (List.filter (fun inv => String.eqb (cinv_status inv) "pending") custInvoices) in
      let total_paid :=
        reduce_amount
          (List.filter (fun inv => String.eqb (cinv_status inv) "paid") custInvoices) in
      ret {| ct_id := c_id customer;
             ct_name := c_name customer;
             ct_email := c_email customer;
             ct_image_url := c_image_url customer;
             ct_total_invoices := total_invoices;
             ct_total_pending := formatCurrency total_pending;
             ct_total_paid := formatCurrency total_paid |}
  end.

Definition fetchFilteredCustomers (query : string) : Eff (list CustomersTableType) :=
  let! r :=
    await (CustomersMatching
             ("name.ilike.%" +:+ query +:+ "%,email.ilike.%" +:+ query +:+ "%")) in
  match error r with
  | Some e =>
      do! console_error "Database Error:" (ErrorValue e) in
      throw (Error "Failed to fetch customer table.")
  | None =>
      match data r with
      | None => throw TypeError
      | Some customers =>
          let customerIds := map c_id customers in
          let! ri := await (InvoicesOfCustomers customerIds) in
          match error ri with
          | Some invoiceError =>
              do! console_error "Database Error:" (ErrorValue invoiceError) in
              throw (Error "Failed to fetch invoices for customers.")
          | None => map_eff (aggregate_customer (data ri)) customers
          end
      end
  end.

End Formatting.

(** ** Specification-side definitions

    What the prose of the specification describes, written independently of
    the loops above, to compare the readers with. *)

(** [invoice] is the first of its customer after the rows [before]: it has a
    truthy customer identifier that no row of [before] carries. *)
Definition first_of_customer (before : list LatestInvoiceRaw)
    (invoice : LatestInvoiceRaw) : bool :=
  match customerId_of invoice with
  | Some cid =>
      Js.truthy cid &&
      forallb (fun r => negb (bool_decide (customerId_of r = Some cid))) before
  | None => false
  end.

(** The rows of [rest] that are the first of their customer, given that the
    rows [before] came earlier in the input; input order is kept. *)
Fixpoint first_per_customer_from (before rest : list LatestInvoiceRaw)
  : list LatestInvoiceRaw :=
  match rest with
  | [] => []
  | r :: rest' =>
      (if first_of_customer before r then [r] else [])
        ++ first_per_customer_from (before ++ [r]) rest'
  end.

Definition first_per_customer (data : list LatestInvoiceRaw) : list LatestInvoiceRaw :=
  first_per_customer_from [] data.

(** An invoice without a usable customer: no joined record, or a joined
    record whose identifier is null or empty. *)
Definition customerless (invoice : LatestInvoiceRaw) : Prop :=
  first_joined (lir_customer_id invoice) = None \/
  exists customer,
    first_joined (lir_customer_id invoice) = Some customer /\
    (cr_id customer = None \/ cr_id customer = Some "").

(** The loop invariant of the deduplication: [seen] holds the truthy customer
    identifiers of the rows visited so far. *)
Definition seen_after (before : list LatestInvoiceRaw) (seen : gset string) : Prop :=
  forall cid : string,
    cid ∈ seen <->
    Js.truthy cid = true /\ exists r, r ∈ before /\ customerId_of r = Some cid.

(** Sum of the amounts of the invoices whose status is [status]. *)
Fixpoint sum_amounts_where (status : string) (l : list AmountStatus) : Z :=
  match l with
  | [] => 0
  | inv :: l' =>
      (if String.eqb (as_status inv) status then as_amount inv else 0)
        + sum_amounts_where status l'
  end.

(** Sum of all amounts. *)
Fixpoint sum_amounts (l : list AmountStatus) : Z :=
  match l with
  | [] => 0
  | inv :: l' => as_amount inv + sum_amounts l'
  end.

(** Case-insensitive substring test. *)
Definition includes_ci (field query : string) : bool :=
  Js.includes (Js.toLowerCase field) (Js.toLowerCase query).

(** The filter of the specification: [query] is a case-insensitive substring
    of the email, the amount, the date, the status or the name. *)
Definition matches_any_field (query : string) (invoice : InvoicesTable) : bool :=
  includes_ci (it_email invoice) query ||
  includes_ci (Js.toString (it_amount invoice)) query ||
  includes_ci (it_date invoice) query ||
  includes_ci (it_status invoice) query ||
  includes_ci (it_name invoice) query.

(** Number of invoices owned by customer [id]. *)
Fixpoint invoices_of (id : string) (l : list CustomerInvoice) : Z :=
  match l with
  | [] => 0
  | inv :: l' =>
      (if String.eqb (cinv_customer_id inv) id then 1 else 0) + invoices_of id l'
  end.

(** Sum of the amounts of the invoices of customer [id] with status [status]. *)
Fixpoint customer_total (id status : string) (l : list CustomerInvoice) : Z :=
  match l with
  | [] => 0
  | inv :: l' =>
      (if String.eqb (cinv_customer_id inv) id && String.eqb (cinv_status inv) status
       then cinv_amount inv else 0)
        + customer_total id status l'
  end.

(** The row the specification describes for [customer]: its own fields, the
    number of its invoices and the formatted sums of its pending and paid
    amounts. *)
Definition customer_summary (formatCurrency : Z -> string)
    (invoices : list CustomerInvoice) (customer : Customer) : CustomersTableType :=
  {| ct_id := c_id customer;
     ct_name := c_name customer;
     ct_email := c_email customer;
     ct_image_url := c_image_url customer;
     ct_total_invoices := invoices_of (c_id customer) invoices;
     ct_total_pending :=
       formatCurrency (customer_total (c_id customer) "pending" invoices);
     ct_total_paid :=
       formatCurrency (customer_total (c_id customer) "paid" invoices) |}.

(** ** Canned clients *)

(** The tables a stub client answers from. *)
Record tables : Type := mkTables
  { tb_latest : list LatestInvoiceRaw;
    tb_amounts : list AmountStatus;
    tb_customer_count : option Z;
    tb_page : list InvoiceRaw;
    tb_invoice_count : option Z;
    tb_single : option InvoiceRow;
    tb_customers : list Customer;
    tb_customer_invoices : list CustomerInvoice }.

Definition rows {A : Type} (d : A) : settled A :=
  Resolved (mkResponse (Some d) None None).

Definition counted (n : option Z) : settled unit :=
  Resolved (mkResponse None None n).

(** A client whose every read succeeds, answering from [tb]; [.single()]
    reports an error value when there is no row. *)
Definition serve (tb : tables) : client :=
  fun r =>
    match r with
    | RevenueAll => rows []
    | InvoicesLatest _ => rows (tb_latest tb)
    | InvoicesAmountStatus => rows (tb_amounts tb)
    | CustomersHeadCount => counted (tb_customer_count tb)
    | InvoicesRange _ _ _ => rows (tb_page tb)
    | InvoicesHeadCount _ => counted (tb_invoice_count tb)
    | InvoiceSingle _ =>
        Resolved (mkResponse (tb_single tb)
                    (match tb_single tb with
                     | Some _ => None
                     | None => Some "no rows returned"
                     end) None)
    | CustomersByName => rows []
    | CustomersMatching _ => rows (tb_customers tb)
    | InvoicesOfCustomers _ => rows (tb_customer_invoices tb)
    end.

(** A client whose every read comes back with an error value and no data. *)
Definition failing (e : db_error) : client :=
  fun r => Resolved (mkResponse None (Some e) None).

Definition empty_tables : tables :=
  mkTables [] [] None [] None None [] [].

Definition acme : CustomerRef :=
  mkCustomerRef (Some "c-acme") (Some "Acme") (Some "/acme.png") (Some "billing@acme.test").

Definition sample_tables : tables :=
  {| tb_latest :=
       [ mkLatestInvoiceRaw "i-1" 1200 "2024-03-03" (JoinOne acme);
         mkLatestInvoiceRaw "i-2" 700 "2024-03-02" JoinNull;
         mkLatestInvoiceRaw "i-3" 300 "2024-03-01" (JoinMany [acme]) ];
     tb_amounts :=
       [ mkAmountStatus 100 "paid"; mkAmountStatus 50 "pending";
         mkAmountStatus 30 "refunded" ];
     tb_customer_count := None;
     tb_page :=
       [ mkInvoiceRaw "i-1" 500 "2024-01-01" "paid"
           (JoinOne (mkCustomerInfo (Some "Amy Burns") (Some "contact@burns.test") None)) ];
     tb_invoice_count := Some 7;
     tb_single := Some (mkInvoiceRow "i-1" "c-acme" 10000 "paid");
     tb_customers := [ mkCustomer "c-acme" "Acme" "billing@acme.test" "/acme.png" ];
     tb_customer_invoices :=
       [ mkCustomerInvoice "c-acme" 100 "paid";
         mkCustomerInvoice "c-acme" 50 "pending";
         mkCustomerInvoice "c-acme" 25 "paid" ] |}.

(** ** Further specification-side definitions *)

(** The usable customer identifier of a row: the joined customer's
    identifier when it is neither null nor empty. *)
Definition usable_customerId (invoice : LatestInvoiceRaw) : option string :=
  match customerId_of invoice with
  | Some cid => if Js.truthy cid then Some cid else None
  | None => None
  end.

(** The distinct usable customer identifiers of a list of rows. *)
Definition customer_ids (d : list LatestInvoiceRaw) : gset string :=
  list_to_set (omap usable_customerId d).

(** How a shaped row relates to the raw row it comes from. *)
Definition shaped_from (formatCurrency : Z -> string)
    (invoice : LatestInvoiceRaw) (row : LatestInvoice) : Prop :=
  exists customer cid,
    first_joined (lir_customer_id invoice) = Some customer /\
    cr_id customer = Some cid /\ cid <> "" /\
    li_id row = lir_id invoice /\
    li_amount row = formatCurrency (lir_amount invoice) /\
    li_name row = cr_name customer ?? "" /\
    li_image_url row = cr_image_url customer ?? "" /\
    li_email row = cr_email customer ?? "".

(** Sum of the invoice counts of a list of aggregated customer rows. *)
Fixpoint sum_total_invoices (out : list CustomersTableType) : Z :=
  match out with
  | [] => 0
  | row :: out' => ct_total_invoices row + sum_total_invoices out'
  end.

(** A character that case folding leaves alone and that no other character
    folds to. *)
Definition caseless (a : ascii) : Prop :=
  Js.lower_ascii a = a /\ forall b, Js.lower_ascii b = a -> b = a.

(** ** Further canned clients *)

(** A client whose every read rejects. *)
Definition rejecting (cause : db_error) : client :=
  fun r => Rejected cause.

(** A client whose every read resolves with neither data nor error. *)
Definition silent : client :=
  fun r => Resolved (mkResponse None None None).

(** Answers from [tb], but the second read of the two-read operations (the
    customer head count, the invoices of the matched customers) comes back
    with the error value [e]. *)
Definition serve_second_failing (tb : tables) (e : db_error) : client :=
  fun r =>
    match r with
    | CustomersHeadCount => Resolved (mkResponse None (Some e) None)
    | InvoicesOfCustomers _ => Resolved (mkResponse None (Some e) None)
    | RevenueAll => serve tb RevenueAll
    | InvoicesLatest n => serve tb (InvoicesLatest n)
    | InvoicesAmountStatus => serve tb InvoicesAmountStatus
    | InvoicesRange q from to => serve tb (InvoicesRange q from to)
    | InvoicesHeadCount q => serve tb (InvoicesHeadCount q)
    | InvoiceSingle id => serve tb (InvoiceSingle id)
    | CustomersByName => serve tb CustomersByName
    | CustomersMatching f => serve tb (CustomersMatching f)
    end.

(** Answers from [tb], but the invoices of the matched customers come back
    with neither data nor error. *)
Definition serve_null_invoices (tb : tables) : client :=
  fun r =>
    match r with
    | InvoicesOfCustomers _ => Resolved (mkResponse None None None)
    | RevenueAll => serve tb RevenueAll
    | InvoicesLatest n => serve tb (InvoicesLatest n)
    | InvoicesAmountStatus => serve tb InvoicesAmountStatus
    | CustomersHeadCount => serve tb CustomersHeadCount
    | InvoicesRange q from to => serve tb (InvoicesRange q from to)
    | InvoicesHeadCount q => serve tb (InvoicesHeadCount q)
    | InvoiceSingle id => serve tb (InvoiceSingle id)
    | CustomersByName => serve tb CustomersByName
    | CustomersMatching f => serve tb (CustomersMatching f)
    end.

(** [sample_tables] with a second matched customer who owns no invoice. *)
Definition two_customer_tables : tables :=
  {| tb_latest := tb_latest sample_tables;
     tb_amounts := tb_amounts sample_tables;
     tb_customer_count := Some 2;
     tb_page := tb_page sample_tables;
     tb_invoice_count := tb_invoice_count sample_tables;
     tb_single := tb_single sample_tables;
     tb_customers :=
       tb_customers sample_tables
         ++ [ mkCustomer "c-bolt" "Bolt" "pay@bolt.test" "/bolt.png" ];
     tb_customer_invoices := tb_customer_invoices sample_tables |}.

(** * Properties *)

(** Unfolds the monad in a reader's body down to the client's answers. *)
Ltac step_reader :=
  unfold result, queries, trace, bind, try_catch, await, throw, ret,
    console_error, console_log, emit.

(** ** Deduplication loop of the latest-invoices reader *)

Lemma seen_after_nil : seen_after [] ∅.
Proof.
  intros cid. split.
  - intros H. set_solver.
  - intros [_ (r & Hr & _)]. inversion Hr.
Qed.

(** A row that adds no new truthy identifier leaves the invariant alone. *)
Lemma seen_after_skip before seen invoice :
  seen_after before seen ->
  (forall cid, customerId_of invoice = Some cid -> Js.truthy cid = true -> cid ∈ seen) ->
  seen_after (before ++ [invoice]) seen.
Proof.
  intros Hinv Hold cid. rewrite (Hinv cid). split.
  - intros [Hc (r & Hr & Heq)]. split; [done|]. exists r. split; [|done].
    apply elem_of_app. by left.
  - intros [Hc (r & Hr & Heq)].
    apply elem_of_app in Hr as [Hr|Hr]; [split; [done|]; by exists r|].
    apply list_elem_of_singleton in Hr. subst r.
    apply Hinv. by apply Hold.
Qed.

Lemma seen_after_add before seen invoice cid :
  seen_after before seen ->
  customerId_of invoice = Some cid ->
  Js.truthy cid = true ->
  seen_after (before ++ [invoice]) (seen ∪ {[cid]}).
Proof.
  intros Hinv Hid Ht c'. rewrite elem_of_union, elem_of_singleton, (Hinv c'). split.
  - intros [[Hc (r & Hr & Heq)] | ->]; (split; [done|]).
    + exists r. split; [|done]. apply elem_of_app. by left.
    + exists invoice. split; [|done].
      apply elem_of_app. right. by apply list_elem_of_singleton.
  - intros [Hc (r & Hr & Heq)].
    apply elem_of_app in Hr as [Hr|Hr]; [left; split; [done|]; by exists r|].
    apply list_elem_of_singleton in Hr. subst r.
    rewrite Hid in Heq. injection Heq as <-. by right.
Qed.

Lemma first_of_customer_spec before invoice :
  first_of_customer before invoice = true <->
  exists cid, customerId_of invoice = Some cid /\ Js.truthy cid = true /\
              forall r, r ∈ before -> customerId_of r <> Some cid.
Proof.
  unfold first_of_customer. destruct (customerId_of invoice) as [cid|].
  - rewrite andb_true_iff, forallb_forall. split.
    + intros [Ht Hall]. exists cid. repeat split; auto.
      intros r Hr Heq. apply list_elem_of_In in Hr. specialize (Hall r Hr).
      rewrite negb_true_iff, bool_decide_eq_false in Hall. contradiction.
    + intros (cid' & Heq & Ht & Hall). injection Heq as <-. split; auto.
      intros r Hr. rewrite negb_true_iff, bool_decide_eq_false.
      apply Hall. by apply list_elem_of_In.
  - split; [discriminate|]. intros (cid & Heq & _). discriminate.
Qed.

(** Under the invariant, the set test of the loop is the scan of the rows
    visited so far. *)
Lemma seen_test before seen cid :
  seen_after before seen ->
  Js.truthy cid = true ->
  negb (bool_decide (cid ∈ seen)) =
  forallb (fun r => negb (bool_decide (customerId_of r = Some cid))) before.
Proof.
  intros Hinv Ht. apply eq_true_iff_eq.
  rewrite negb_true_iff, bool_decide_eq_false, forallb_forall, (Hinv cid). split.
  - intros Hno r Hr. rewrite negb_true_iff, bool_decide_eq_false. intros Heq.
    apply Hno. split; [done|]. exists r. split; [|done]. by apply list_elem_of_In.
  - intros Hall [_ (r & Hr & Heq)]. apply list_elem_of_In in Hr.
    specialize (Hall r Hr). rewrite negb_true_iff, bool_decide_eq_false in Hall.
    contradiction.
Qed.

Lemma latest_step_spec before seen acc invoice :
  seen_after before seen ->
  exists seen',
    latest_step (seen, acc) invoice =
      (seen', acc ++ (if first_of_customer before invoice then [invoice] else []))
    /\ seen_after (before ++ [invoice]) seen'.
Proof.
  intros Hinv. unfold latest_step, first_of_customer.
  destruct (customerId_of invoice) as [cid|] eqn:Hid.
  - destruct (Js.truthy cid) eqn:Ht; cbn [andb].
    + rewrite <- (seen_test before seen cid Hinv Ht).
      destruct (bool_decide (cid ∈ seen)) eqn:Hs; cbn [negb].
      * exists seen. rewrite app_nil_r. split; [done|].
        apply seen_after_skip; [done|]. intros c' Hc' _.
        rewrite Hid in Hc'. injection Hc' as <-. by apply bool_decide_eq_true in Hs.
      * exists (seen ∪ {[cid]}). split; [done|]. by apply seen_after_add.
    + exists seen. rewrite app_nil_r. split; [done|].
      apply seen_after_skip; [done|]. intros c' Hc' Ht'.
      rewrite Hid in Hc'. injection Hc' as <-. congruence.
  - exists seen. rewrite app_nil_r. split; [done|].
    apply seen_after_skip; [done|]. intros c' Hc'. congruence.
Qed.

Lemma fold_latest_step rest : forall before seen acc,
  seen_after before seen ->
  snd (fold_left latest_step rest (seen, acc)) =
    acc ++ first_per_customer_from before rest.
Proof.
  induction rest as [|r rest IH]; intros before seen acc Hinv;
    cbn [fold_left first_per_customer_from].
  - by rewrite app_nil_r.
  - destruct (latest_step_spec before seen acc r Hinv) as (seen' & -> & Hinv').
    rewrite (IH _ _ _ Hinv'). by rewrite <- app_assoc.
Qed.

Lemma latestByCustomer_first_per_customer data :
  latestByCustomer data = first_per_customer data.
Proof.
  unfold latestByCustomer, first_per_customer.
  by rewrite (fold_latest_step data [] ∅ [] seen_after_nil).
Qed.

Lemma first_per_customer_from_elem rest : forall before r,
  r ∈ first_per_customer_from before rest <->
  exists i, rest !! i = Some r /\ first_of_customer (before ++ take i rest) r = true.
Proof.
  induction rest as [|x rest IH]; intros before r; cbn [first_per_customer_from].
  - split; [intros H; inversion H|]. intros (i & Hi & _). by destruct i.
  - rewrite elem_of_app, IH. split.
    + intros [Hx | (i & Hi & Hf)].
      * destruct (first_of_customer before x) eqn:Hfx; [|inversion Hx].
        apply list_elem_of_singleton in Hx. subst x.
        exists 0%nat. cbn. by rewrite app_nil_r.
      * exists (S i). cbn. split; [done|]. by rewrite <- app_assoc in Hf.
    + intros ([|i] & Hi & Hf); cbn in Hi, Hf.
      * injection Hi as ->. rewrite app_nil_r in Hf. rewrite Hf.
        left. by apply list_elem_of_singleton.
      * right. exists i. split; [done|]. by rewrite <- app_assoc.
Qed.

Lemma first_per_customer_from_NoDup rest : forall before,
  NoDup (map customerId_of (first_per_customer_from before rest)).
Proof.
  induction rest as [|x rest IH]; intros before; cbn [first_per_customer_from].
  - constructor.
  - destruct (first_of_customer before x) eqn:Hfx; cbn [app map]; [|apply IH].
    constructor; [|apply IH].
    intros Hin. apply list_elem_of_fmap in Hin as (r & Heq & Hr).
    apply first_per_customer_from_elem in Hr as (i & _ & Hf).
    apply first_of_customer_spec in Hf as (cid & Hid & _ & Hall).
    apply (Hall x); [|congruence].
    apply elem_of_app. left. apply elem_of_app. right. by apply list_elem_of_singleton.
Qed.

Lemma first_per_customer_from_sublist rest : forall before,
  first_per_customer_from before rest `sublist_of` rest.
Proof.
  induction rest as [|x rest IH]; intros before; cbn [first_per_customer_from].
  - constructor.
  - destruct (first_of_customer before x); cbn [app].
    + apply sublist_skip, IH.
    + apply sublist_cons, IH.
Qed.

(** A kept row has a joined customer with a non-empty identifier. *)
Lemma first_of_customer_has_customer before invoice :
  first_of_customer before invoice = true ->
  exists customer cid,
    first_joined (lir_customer_id invoice) = Some customer /\
    cr_id customer = Some cid /\ cid <> "".
Proof.
  intros Hf. apply first_of_customer_spec in Hf as (cid & Hid & Ht & _).
  unfold customerId_of in Hid.
  destruct (first_joined (lir_customer_id invoice)) as [customer|]; [|discriminate].
  exists customer, cid. repeat split; [done|].
  intros ->. discriminate.
Qed.

Lemma customerless_not_first before invoice :
  customerless invoice -> first_of_customer before invoice = false.
Proof.
  intros Hless. apply not_true_is_false. intros Hf.
  apply first_of_customer_has_customer in Hf as (customer & cid & Hj & Hid & Hne).
  destruct Hless as [Hnone | (customer' & Hj' & [Hid' | Hid'])]; congruence.
Qed.

Lemma first_per_customer_from_customerless rest : forall before,
  Forall customerless rest -> first_per_customer_from before rest = [].
Proof.
  induction rest as [|x rest IH]; intros before Hall; cbn [first_per_customer_from].
  - done.
  - inversion Hall as [|? ? Hx Hrest]; subst.
    by rewrite (customerless_not_first before x Hx), (IH _ Hrest).
Qed.

(** The value the latest-invoices reader returns on a successful read. *)
Lemma fetchLatestInvoices_returns formatCurrency (c : client)
    (r : response (list LatestInvoiceRaw)) (d : list LatestInvoiceRaw) :
  c (InvoicesLatest 100) = Resolved r ->
  error r = None ->
  data r = Some d ->
  result (fetchLatestInvoices formatCurrency c) =
  Return (map (shape_latest formatCurrency) (latestByCustomer d)).
Proof.
  intros Hc Herr Hdata. unfold fetchLatestInvoices. step_reader.
  rewrite Hc. cbn. rewrite Herr, Hdata. reflexivity.
Qed.

(** ** Latest-invoices reader *)

(** C3. On a successful read of the rows [d], the latest-invoices reader
    returns the shaped rows of [latestByCustomer d], in which no two rows
    carry the same customer identifier; the kept rows are exactly the rows of
    [d] that are the first of their customer in input order (a row at
    position [i] is kept if and only if it has a truthy customer identifier
    that no row before position [i] carries), and they come in the order of
    the input. *)
Theorem fetchLatestInvoices_first_per_customer formatCurrency (c : client)
    (r : response (list LatestInvoiceRaw)) (d : list LatestInvoiceRaw) :
  c (InvoicesLatest 100) = Resolved r ->
  error r = None ->
  data r = Some d ->
  result (fetchLatestInvoices formatCurrency c) =
    Return (map (shape_latest formatCurrency) (latestByCustomer d)) /\
  NoDup (map customerId_of (latestByCustomer d)) /\
  latestByCustomer d = first_per_customer d /\
  latestByCustomer d `sublist_of` d /\
  (forall i inv, d !! i = Some inv -> first_of_customer (take i d) inv = true ->
     inv ∈ latestByCustomer d) /\
  (forall inv, inv ∈ latestByCustomer d ->
     exists i, d !! i = Some inv /\ first_of_customer (take i d) inv = true).
Proof.
  intros Hc Herr Hdata.
  split; [by apply (fetchLatestInvoices_returns _ c r d)|].
  rewrite latestByCustomer_first_per_customer. unfold first_per_customer.
  split; [apply first_per_customer_from_NoDup|].
  split; [reflexivity|].
  split; [apply first_per_customer_from_sublist|].
  split.
  - intros i inv Hi Hf. apply first_per_customer_from_elem. by exists i.
  - intros inv Hin. by apply first_per_customer_from_elem in Hin.
Qed.

Lemma fetchLatestInvoices_first_per_customer_witness :
  result (fetchLatestInvoices Js.toString (serve sample_tables)) =
    Return (map (shape_latest Js.toString) (latestByCustomer (tb_latest sample_tables))) /\
  NoDup (map customerId_of (latestByCustomer (tb_latest sample_tables))).
Proof.
  pose proof (fetchLatestInvoices_first_per_customer Js.toString (serve sample_tables)
                (mkResponse (Some (tb_latest sample_tables)) None None)
                (tb_latest sample_tables) eq_refl eq_refl eq_refl) as H.
  split; [exact (proj1 H) | exact (proj1 (proj2 H))].
Defined.

(** C9. On a successful read of the rows [d], an invoice whose joined
    customer is absent, or whose customer identifier is null or empty, is not
    among the rows the latest-invoices reader keeps and shapes: every kept row
    has a joined customer with a non-empty identifier, and when no row of [d]
    has one the reader returns the empty list. *)
Theorem fetchLatestInvoices_drops_customerless formatCurrency (c : client)
    (r : response (list LatestInvoiceRaw)) (d : list LatestInvoiceRaw) :
  c (InvoicesLatest 100) = Resolved r ->
  error r = None ->
  data r = Some d ->
  result (fetchLatestInvoices formatCurrency c) =
    Return (map (shape_latest formatCurrency) (latestByCustomer d)) /\
  (forall inv, customerless inv -> inv ∉ latestByCustomer d) /\
  Forall (fun inv => exists customer cid,
            first_joined (lir_customer_id inv) = Some customer /\
            cr_id customer = Some cid /\ cid <> "")
         (latestByCustomer d) /\
  (Forall customerless d -> result (fetchLatestInvoices formatCurrency c) = Return []).
Proof.
  intros Hc Herr Hdata.
  rewrite (fetchLatestInvoices_returns _ c r d Hc Herr Hdata).
  split; [reflexivity|].
  rewrite latestByCustomer_first_per_customer. unfold first_per_customer.
  split; [|split].
  - intros inv Hless Hin.
    apply first_per_customer_from_elem in Hin as (i & _ & Hf).
    by rewrite (customerless_not_first _ inv Hless) in Hf.
  - apply Forall_forall. intros inv Hin.
    apply first_per_customer_from_elem in Hin as (i & _ & Hf).
    by apply first_of_customer_has_customer in Hf.
  - intros Hall. by rewrite (first_per_customer_from_customerless d [] Hall).
Qed.

Lemma fetchLatestInvoices_drops_customerless_witness :
  customerless (mkLatestInvoiceRaw "i-2" 700 "2024-03-02" JoinNull) /\
  mkLatestInvoiceRaw "i-2" 700 "2024-03-02" JoinNull
    ∉ latestByCustomer (tb_latest sample_tables).
Proof.
  pose proof (fetchLatestInvoices_drops_customerless Js.toString (serve sample_tables)
                (mkResponse (Some (tb_latest sample_tables)) None None)
                (tb_latest sample_tables) eq_refl eq_refl eq_refl) as H.
  assert (Hless : customerless (mkLatestInvoiceRaw "i-2" 700 "2024-03-02" JoinNull))
    by (left; reflexivity).
  split; [exact Hless | exact (proj1 (proj2 H) _ Hless)].
Defined.

(** ** Card-summary reader *)

Lemma fold_card_step (l : list AmountStatus) : forall paid pending : Z,
  fold_left card_step l (paid, pending) =
  (paid + sum_amounts_where "paid" l, pending + sum_amounts_where "pending" l).
Proof.
  induction l as [|inv l IH]; intros paid pending; cbn [fold_left sum_amounts_where].
  - f_equal; lia.
  - unfold card_step at 2.
    destruct (String.eqb (as_status inv) "paid") eqn:Hpaid.
    + apply String.eqb_eq in Hpaid. rewrite Hpaid. cbn [String.eqb Ascii.eqb].
      rewrite IH. cbn. f_equal; lia.
    + destruct (String.eqb (as_status inv) "pending") eqn:Hpending;
        rewrite IH; f_equal; lia.
Qed.

Lemma sum_amounts_where_app status (l1 l2 : list AmountStatus) :
  sum_amounts_where status (l1 ++ l2) =
  sum_amounts_where status l1 + sum_amounts_where status l2.
Proof.
  induction l1 as [|inv l1 IH]; cbn [app sum_amounts_where]; [done|].
  rewrite IH. lia.
Qed.

Lemma sum_amounts_app (l1 l2 : list AmountStatus) :
  sum_amounts (l1 ++ l2) = sum_amounts l1 + sum_amounts l2.
Proof.
  induction l1 as [|inv l1 IH]; cbn [app sum_amounts]; [done|].
  rewrite IH. lia.
Qed.

(** With non-negative amounts, the paid and pending sums stay below the sum of
    all amounts. *)
Lemma paid_pending_le_all (l : list AmountStatus) :
  Forall (fun inv => 0 <= as_amount inv) l ->
  sum_amounts_where "paid" l + sum_amounts_where "pending" l <= sum_amounts l.
Proof.
  induction 1 as [|inv l Hinv _ IH]; cbn [sum_amounts_where sum_amounts]; [lia|].
  destruct (String.eqb (as_status inv) "paid") eqn:Hpaid.
  - apply String.eqb_eq in Hpaid. rewrite Hpaid. cbn. lia.
  - destruct (String.eqb (as_status inv) "pending"); lia.
Qed.

(** The value the card-summary reader returns when both reads succeed. *)
Lemma fetchCardData_returns (c : client) (r : response (list AmountStatus))
    (rc : response unit) (d : list AmountStatus) :
  c InvoicesAmountStatus = Resolved r ->
  error r = None ->
  data r = Some d ->
  c CustomersHeadCount = Resolved rc ->
  error rc = None ->
  result (fetchCardData c) =
  Return {| totalPaidInvoices := sum_amounts_where "paid" d;
            totalPendingInvoices := sum_amounts_where "pending" d;
            numberOfInvoices := Z.of_nat (length d);
            numberOfCustomers := count rc ?? 0 |}.
Proof.
  intros Hc Herr Hdata Hcc Hcerr. unfold fetchCardData. step_reader.
  rewrite Hc. cbn. rewrite Herr, Hdata, fold_card_step, Hcc. cbn. rewrite Hcerr.
  reflexivity.
Qed.

(** C4. When both reads succeed and the invoice read carries the rows [d],
    the card-summary reader returns a record whose [totalPaidInvoices] is the
    sum of the amounts of the invoices with status 'paid', whose
    [totalPendingInvoices] is the sum of the amounts of the invoices with
    status 'pending', whose [numberOfInvoices] is the length of [d], and whose
    [numberOfCustomers] is the head count, or 0 when the head count is null. *)
Theorem fetchCardData_totals (c : client) (r : response (list AmountStatus))
    (rc : response unit) (d : list AmountStatus) :
  c InvoicesAmountStatus = Resolved r ->
  error r = None ->
  data r = Some d ->
  c CustomersHeadCount = Resolved rc ->
  error rc = None ->
  exists card : CardData,
    result (fetchCardData c) = Return card /\
    totalPaidInvoices card = sum_amounts_where "paid" d /\
    totalPendingInvoices card = sum_amounts_where "pending" d /\
    numberOfInvoices card = Z.of_nat (length d) /\
    (count rc = None -> numberOfCustomers card = 0) /\
    (forall n, count rc = Some n -> numberOfCustomers card = n).
Proof.
  intros Hc Herr Hdata Hcc Hcerr.
  eexists. split; [by apply (fetchCardData_returns c r rc d)|].
  cbn. repeat split; [by intros -> | by intros n ->].
Qed.

Lemma fetchCardData_totals_witness :
  exists card : CardData,
    result (fetchCardData (serve sample_tables)) = Return card /\
    totalPaidInvoices card = 100 /\
    totalPendingInvoices card = 50 /\
    numberOfInvoices card = 3 /\
    numberOfCustomers card = 0.
Proof.
  destruct (fetchCardData_totals (serve sample_tables)
              (mkResponse (Some (tb_amounts sample_tables)) None None)
              (mkResponse None None None)
              (tb_amounts sample_tables) eq_refl eq_refl eq_refl eq_refl eq_refl)
    as (card & Hres & Hpaid & Hpending & Hn & Hnull & _).
  exists card. repeat split; [exact Hres | exact Hpaid | exact Hpending | exact Hn |].
  apply Hnull. reflexivity.
Defined.

(** C10. When both reads succeed and the invoice read carries a row [inv]
    whose status is neither 'paid' nor 'pending' (anywhere in the list), the
    card-summary reader counts [inv] in [numberOfInvoices] while both totals
    are what they are without [inv]; so, when the amounts are non-negative and
    the amount of [inv] is positive, [totalPaidInvoices + totalPendingInvoices]
    is strictly less than the sum of all invoice amounts. *)
Theorem fetchCardData_other_status (c : client) (r : response (list AmountStatus))
    (rc : response unit) (d1 d2 : list AmountStatus) (inv : AmountStatus) :
  c InvoicesAmountStatus = Resolved r ->
  error r = None ->
  data r = Some (d1 ++ inv :: d2) ->
  c CustomersHeadCount = Resolved rc ->
  error rc = None ->
  as_status inv <> "paid" ->
  as_status inv <> "pending" ->
  exists card : CardData,
    result (fetchCardData c) = Return card /\
    numberOfInvoices card = Z.of_nat (length (d1 ++ d2)) + 1 /\
    totalPaidInvoices card = sum_amounts_where "paid" (d1 ++ d2) /\
    totalPendingInvoices card = sum_amounts_where "pending" (d1 ++ d2) /\
    (Forall (fun i => 0 <= as_amount i) (d1 ++ d2) ->
     0 < as_amount inv ->
     totalPaidInvoices card + totalPendingInvoices card
       < sum_amounts (d1 ++ inv :: d2)).
Proof.
  intros Hc Herr Hdata Hcc Hcerr Hpaid Hpending.
  apply String.eqb_neq in Hpaid, Hpending.
  assert (Hsum : forall status, (status = "paid" \/ status = "pending") ->
            sum_amounts_where status (d1 ++ inv :: d2) =
            sum_amounts_where status (d1 ++ d2)).
  { intros status Hs. rewrite !sum_amounts_where_app. cbn [sum_amounts_where].
    destruct Hs as [-> | ->]; [rewrite Hpaid | rewrite Hpending]; lia. }
  eexists. split; [by apply (fetchCardData_returns c r rc (d1 ++ inv :: d2))|].
  cbn [totalPaidInvoices totalPendingInvoices numberOfInvoices].
  rewrite !Hsum by auto.
  split; [rewrite !length_app; cbn [length]; lia|].
  split; [reflexivity|]. split; [reflexivity|].
  intros Hnonneg Hpos.
  pose proof (paid_pending_le_all _ Hnonneg) as Hle.
  rewrite sum_amounts_app in *. cbn [sum_amounts]. lia.
Qed.

Lemma fetchCardData_other_status_witness :
  exists card : CardData,
    result (fetchCardData (serve sample_tables)) = Return card /\
    numberOfInvoices card = 3 /\
    totalPaidInvoices card + totalPendingInvoices card < 180.
Proof.
  destruct (fetchCardData_other_status (serve sample_tables)
              (mkResponse (Some (tb_amounts sample_tables)) None None)
              (mkResponse None None None)
              [mkAmountStatus 100 "paid"; mkAmountStatus 50 "pending"] []
              (mkAmountStatus 30 "refunded")
              eq_refl eq_refl eq_refl eq_refl eq_refl
              ltac:(discriminate) ltac:(discriminate))
    as (card & Hres & Hn & _ & _ & Hlt).
  exists card. split; [exact Hres|]. split; [exact Hn|].
  apply Hlt; [|reflexivity].
  repeat constructor; discriminate.
Defined.

(** ** Invoice-by-id reader *)

(** C5. When the single-row read resolves without a row, the invoice-by-id
    reader returns null and throws nothing; when it resolves with a row, the
    reader returns that row with its amount divided by 100, so a stored amount
    of 10000 comes back as 100. *)
Theorem fetchInvoiceById_null_or_major_units (c : client) (id : string)
    (r : response InvoiceRow) :
  c (InvoiceSingle id) = Resolved r ->
  (data r = None -> result (fetchInvoiceById id c) = Return None) /\
  (forall d : InvoiceRow, data r = Some d ->
     exists form : InvoiceForm,
       result (fetchInvoiceById id c) = Return (Some form) /\
       if_id form = iv_id d /\
       if_customer_id form = iv_customer_id d /\
       if_status form = iv_status d /\
       (if_amount form == inject_Z (iv_amount d) / 100)%Q /\
       (iv_amount d = 10000 -> (if_amount form == 100)%Q)).
Proof.
  intros Hc. split.
  - intros Hdata. unfold fetchInvoiceById. step_reader. rewrite Hc. cbn.
    by rewrite Hdata.
  - intros d Hdata. eexists. split.
    + unfold fetchInvoiceById. step_reader. rewrite Hc. cbn. by rewrite Hdata.
    + cbn. repeat split; try reflexivity.
      intros ->. reflexivity.
Qed.

Lemma fetchInvoiceById_null_or_major_units_witness :
  result (fetchInvoiceById "i-0" (serve empty_tables)) = Return None /\
  exists form : InvoiceForm,
    result (fetchInvoiceById "i-1" (serve sample_tables)) = Return (Some form) /\
    (if_amount form == 100)%Q.
Proof.
  split.
  - apply (fetchInvoiceById_null_or_major_units (serve empty_tables) "i-0"
             (mkResponse None (Some "no rows returned") None) eq_refl).
    reflexivity.
  - destruct (proj2 (fetchInvoiceById_null_or_major_units (serve sample_tables) "i-1"
                       (mkResponse (tb_single sample_tables) None None) eq_refl)
                _ eq_refl)
      as (form & Hres & _ & _ & _ & _ & Hexample).
    exists form. split; [exact Hres|]. apply Hexample. reflexivity.
Defined.

(** ** Page-count reader *)

Lemma Math_ceil_div (n : Z) :
  Math_ceil (inject_Z n / inject_Z ITEMS_PER_PAGE)%Q = - ((- n) / 6).
Proof.
  unfold Math_ceil, Qceiling, Qfloor, ITEMS_PER_PAGE, Qdiv, Qmult, Qinv, Qopp, inject_Z.
  cbn. by rewrite Z.mul_1_r.
Qed.

(** [Math.ceil(n / 6)] is the least integer [p] with [n <= 6 * p]. *)
Lemma Math_ceil_bounds (n : Z) :
  let p := Math_ceil (inject_Z n / inject_Z ITEMS_PER_PAGE)%Q in
  6 * (p - 1) < n <= 6 * p.
Proof.
  cbv zeta. rewrite Math_ceil_div.
  pose proof (Z.div_mod (- n) 6 ltac:(lia)) as Hdm.
  pose proof (Z.mod_pos_bound (- n) 6 ltac:(lia)) as Hb. lia.
Qed.

(** C6. When the count read succeeds, the page-count reader returns the
    ceiling of count / 6, the least integer [p] with [count <= 6 * p]: 0 for a
    count of 0, 1 for a count from 1 to 6, 2 for a count from 7 to 12, and 0
    when the count is null. *)
Theorem fetchInvoicesPages_ceiling (c : client) (query : string) (r : response unit) :
  c (InvoicesHeadCount ("%" +:+ query +:+ "%")) = Resolved r ->
  error r = None ->
  exists totalPages : Z,
    result (fetchInvoicesPages query c) = Return totalPages /\
    (count r = None -> totalPages = 0) /\
    (forall n : Z, count r = Some n ->
       6 * (totalPages - 1) < n <= 6 * totalPages /\
       (n = 0 -> totalPages = 0) /\
       (1 <= n <= 6 -> totalPages = 1) /\
       (7 <= n <= 12 -> totalPages = 2)).
Proof.
  intros Hc Herr.
  exists (Math_ceil (inject_Z (count r ?? 0%Z) / inject_Z ITEMS_PER_PAGE)%Q).
  split.
  - unfold fetchInvoicesPages. step_reader. rewrite Hc. cbn. by rewrite Herr.
  - split.
    + intros ->. reflexivity.
    + intros n ->. cbn [Js.nullish].
      pose proof (Math_ceil_bounds n) as Hb. cbv zeta in Hb.
      repeat split; lia.
Qed.

Lemma fetchInvoicesPages_ceiling_witness :
  exists totalPages : Z,
    result (fetchInvoicesPages "lee" (serve sample_tables)) = Return totalPages /\
    totalPages = 2.
Proof.
  destruct (fetchInvoicesPages_ceiling (serve sample_tables) "lee"
              (mkResponse None None (Some 7)) eq_refl eq_refl)
    as (totalPages & Hres & _ & Hcount).
  exists totalPages. split; [exact Hres|].
  destruct (Hcount 7 eq_refl) as (_ & _ & _ & Htwo).
  apply Htwo. lia.
Defined.

(** ** Filtered-invoices reader *)

(** C8. For every page number [p], the filtered-invoices reader sends the
    backend exactly one read, restricted to the inclusive offset range from
    [(p - 1) * 6] to [p * 6 - 1], which spans 6 rows. *)
Theorem fetchFilteredInvoices_range (c : client) (query : string) (p : Z) :
  queries (fetchFilteredInvoices query p c) =
    [InvoicesRange ("%" +:+ query +:+ "%") ((p - 1) * 6) (p * 6 - 1)] /\
  (p * 6 - 1) - (p - 1) * 6 + 1 = 6.
Proof.
  split; [|lia].
  unfold fetchFilteredInvoices. step_reader. unfold ITEMS_PER_PAGE.
  replace ((p - 1) * 6 + 6 - 1) with (p * 6 - 1) by lia.
  destruct (c (InvoicesRange ("%" +:+ query +:+ "%") ((p - 1) * 6) (p * 6 - 1)))
    as [[rows [e|] cnt] | cause]; reflexivity.
Qed.

(** ** Filtered-customers reader *)

Lemma fold_amount_shift (xs : list CustomerInvoice) : forall a : Z,
  fold_left (fun sum inv => sum + cinv_amount inv) xs a = a + reduce_amount xs.
Proof.
  unfold reduce_amount.
  induction xs as [|x xs IH]; intros a; cbn [fold_left]; [lia|].
  rewrite (IH (a + cinv_amount x)), (IH (0 + cinv_amount x)). lia.
Qed.

Lemma reduce_amount_cons (x : CustomerInvoice) (xs : list CustomerInvoice) :
  reduce_amount (x :: xs) = cinv_amount x + reduce_amount xs.
Proof.
  unfold reduce_amount at 1. cbn [fold_left]. rewrite fold_amount_shift. lia.
Qed.

Lemma length_own_invoices (id : string) (invoices : list CustomerInvoice) :
  Z.of_nat (length (List.filter (fun inv => String.eqb (cinv_customer_id inv) id)
                      invoices)) =
  invoices_of id invoices.
Proof.
  induction invoices as [|inv invoices IH]; cbn [List.filter invoices_of]; [done|].
  destruct (String.eqb (cinv_customer_id inv) id); cbn [length]; lia.
Qed.

Lemma reduce_own_invoices (id status : string) (invoices : list CustomerInvoice) :
  reduce_amount
    (List.filter (fun inv => String.eqb (cinv_status inv) status)
       (List.filter (fun inv => String.eqb (cinv_customer_id inv) id) invoices)) =
  customer_total id status invoices.
Proof.
  induction invoices as [|inv invoices IH]; cbn [List.filter customer_total]; [done|].
  destruct (String.eqb (cinv_customer_id inv) id); cbn [List.filter andb]; [|lia].
  destruct (String.eqb (cinv_status inv) status); [|lia].
  rewrite reduce_amount_cons. lia.
Qed.

Lemma aggregate_customer_summary formatCurrency (invoices : list CustomerInvoice)
    (customer : Customer) (c : client) :
  aggregate_customer formatCurrency (Some invoices) customer c =
  ([], Return (customer_summary formatCurrency invoices customer)).
Proof.
  unfold aggregate_customer, customer_summary, ret.
  by rewrite length_own_invoices, !reduce_own_invoices.
Qed.

Lemma map_eff_pure {A B : Type} (f : A -> Eff B) (g : A -> B) (c : client)
    (l : list A) :
  (forall x, f x c = ([], Return (g x))) ->
  map_eff f l c = ([], Return (map g l)).
Proof.
  intros Hf. induction l as [|x l IH]; cbn [map_eff map]; [done|].
  unfold bind. rewrite Hf, IH. reflexivity.
Qed.

(** C7. When both reads succeed, with [customers] matched and [invoices]
    fetched for them, the filtered-customers reader returns one row per
    matched customer, in order, carrying the customer's fields, the number of
    invoices whose owning customer id is the customer's, and the formatted
    sums of the pending and of the paid amounts among those invoices.  For a
    single customer with invoices of 100 paid, 50 pending and 25 paid this is
    3 invoices, a paid total formatted from 125 and a pending total formatted
    from 50. *)
Theorem fetchFilteredCustomers_aggregates formatCurrency (c : client) (query : string)
    (r : response (list Customer)) (ri : response (list CustomerInvoice))
    (customers : list Customer) (invoices : list CustomerInvoice) :
  c (CustomersMatching
       ("name.ilike.%" +:+ query +:+ "%,email.ilike.%" +:+ query +:+ "%")) = Resolved r ->
  error r = None ->
  data r = Some customers ->
  c (InvoicesOfCustomers (map c_id customers)) = Resolved ri ->
  error ri = None ->
  data ri = Some invoices ->
  result (fetchFilteredCustomers formatCurrency query c) =
    Return (map (customer_summary formatCurrency invoices) customers) /\
  (forall customer : Customer,
     customers = [customer] ->
     invoices = [ mkCustomerInvoice (c_id customer) 100 "paid";
                  mkCustomerInvoice (c_id customer) 50 "pending";
                  mkCustomerInvoice (c_id customer) 25 "paid" ] ->
     result (fetchFilteredCustomers formatCurrency query c) =
       Return [ {| ct_id := c_id customer;
                   ct_name := c_name customer;
                   ct_email := c_email customer;
                   ct_image_url := c_image_url customer;
                   ct_total_invoices := 3;
                   ct_total_pending := formatCurrency 50;
                   ct_total_paid := formatCurrency 125 |} ]).
Proof.
  intros Hc Herr Hdata Hci Hcierr Hcidata.
  assert (Hres : result (fetchFilteredCustomers formatCurrency query c) =
                 Return (map (customer_summary formatCurrency invoices) customers)).
  { unfold fetchFilteredCustomers. step_reader.
    rewrite Hc. cbn. rewrite Herr, Hdata, Hci. cbn. rewrite Hcierr, Hcidata.
    rewrite (map_eff_pure _ (customer_summary formatCurrency invoices));
      [reflexivity|].
    intros customer. apply aggregate_customer_summary. }
  split; [exact Hres|].
  intros customer -> ->. rewrite Hres. cbn [map].
  unfold customer_summary. cbn [invoices_of customer_total cinv_customer_id
    cinv_status cinv_amount].
  rewrite String.eqb_refl. reflexivity.
Qed.

Lemma fetchFilteredCustomers_aggregates_witness :
  result (fetchFilteredCustomers Js.toString "acme" (serve sample_tables)) =
  Return [ {| ct_id := "c-acme";
              ct_name := "Acme";
              ct_email := "billing@acme.test";
              ct_image_url := "/acme.png";
              ct_total_invoices := 3;
              ct_total_pending := "50";
              ct_total_paid := "125" |} ].
Proof.
  apply (proj2 (fetchFilteredCustomers_aggregates Js.toString (serve sample_tables)
                  "acme"
                  (mkResponse (Some (tb_customers sample_tables)) None None)
                  (mkResponse (Some (tb_customer_invoices sample_tables)) None None)
                  (tb_customers sample_tables) (tb_customer_invoices sample_tables)
                  eq_refl eq_refl eq_refl eq_refl eq_refl eq_refl)
          (mkCustomer "c-acme" "Acme" "billing@acme.test" "/acme.png")
          eq_refl eq_refl).
Defined.

(** ** Client-side text filter of the filtered-invoices reader *)

Lemma toLowerCase_digits (d : Decimal.uint) :
  Js.toLowerCase (NilEmpty.string_of_uint d) = NilEmpty.string_of_uint d.
Proof.
  induction d; cbn [NilEmpty.string_of_uint Js.toLowerCase]; [done|..];
    rewrite IHd; reflexivity.
Qed.

(** The decimal rendering of an integer has no letters to fold. *)
Lemma toLowerCase_toString (n : Z) :
  Js.toLowerCase (Js.toString n) = Js.toString n.
Proof.
  unfold Js.toString, NilZero.string_of_int, NilZero.string_of_uint.
  destruct (Z.to_int n) as [d | d]; destruct d;
    try reflexivity; cbn [Js.toLowerCase];
    rewrite ?toLowerCase_digits; reflexivity.
Qed.







(** C2. The client-side filter does not match case-insensitively on the name
    and on the status.  Take the row of status "paid" for the customer named
    "Amy Burns" (email "contact@burns.test", amount 500, date "2024-01-01").
    The query "Amy" is a case-insensitive substring of the name, and the query
    "PAID" one of the status, so the specified filter keeps the row for both;
    the filter of the reader rejects the row for both, and the reader returns
    no row. *)
Theorem matches_query_case_sensitive :
  let row :=
    mkInvoicesTable "i-1" 500 "2024-01-01" "paid" "Amy Burns" "contact@burns.test" "" in
  map flatten_invoice (tb_page sample_tables) = [row] /\
  (includes_ci (it_name row) "Amy" = true /\
   matches_any_field "Amy" row = true /\
   matches_query "Amy" row = false /\
   result (fetchFilteredInvoices "Amy" 1 (serve sample_tables)) = Return []) /\
  (includes_ci (it_status row) "PAID" = true /\
   matches_any_field "PAID" row = true /\
   matches_query "PAID" row = false /\
   result (fetchFilteredInvoices "PAID" 1 (serve sample_tables)) = Return []) /\
  result (fetchFilteredInvoices "amy" 1 (serve sample_tables)) = Return [row].
Proof.
  cbv zeta. repeat split; reflexivity.
Qed.

(** ** Error values of the backend *)

Lemma fetchRevenue_error_throws (c : client) (r : response (list Revenue)) (e : db_error) :
  c RevenueAll = Resolved r -> error r = Some e ->
  result (fetchRevenue c) = Throw (Error "Failed to fetch revenue data.").
Proof.
  intros Hc Herr. unfold fetchRevenue. step_reader. rewrite Hc. cbn.
  by rewrite Herr.
Qed.

Lemma fetchLatestInvoices_error_throws formatCurrency (c : client)
    (r : response (list LatestInvoiceRaw)) (e : db_error) :
  c (InvoicesLatest 100) = Resolved r -> error r = Some e ->
  result (fetchLatestInvoices formatCurrency c) =
  Throw (Error "Failed to fetch the latest invoices.").
Proof.
  intros Hc Herr. unfold fetchLatestInvoices. step_reader. rewrite Hc. cbn.
  by rewrite Herr.
Qed.

Lemma fetchCardData_error_throws (c : client) (r : response (list AmountStatus))
    (e : db_error) :
  c InvoicesAmountStatus = Resolved r -> error r = Some e ->
  result (fetchCardData c) = Throw (Error "Failed to fetch card data.").
Proof.
  intros Hc Herr. unfold fetchCardData. step_reader. rewrite Hc. cbn.
  by rewrite Herr.
Qed.

Lemma fetchCardData_count_error_throws (c : client) (r : response (list AmountStatus))
    (rc : response unit) (e : db_error) :
  c InvoicesAmountStatus = Resolved r -> error r = None ->
  c CustomersHeadCount = Resolved rc -> error rc = Some e ->
  result (fetchCardData c) = Throw (Error "Failed to fetch customer count.").
Proof.
  intros Hc Herr Hcc Hcerr. unfold fetchCardData. step_reader. rewrite Hc. cbn.
  rewrite Herr. destruct (data r); rewrite ?fold_card_step, Hcc; cbn;
    by rewrite Hcerr.
Qed.

Lemma fetchFilteredInvoices_error_throws (c : client) (query : string) (p : Z)
    (r : response (list InvoiceRaw)) (e : db_error) :
  c (InvoicesRange ("%" +:+ query +:+ "%") ((p - 1) * 6) ((p - 1) * 6 + 6 - 1))
    = Resolved r ->
  error r = Some e ->
  result (fetchFilteredInvoices query p c) = Throw (Error "Failed to fetch invoices.").
Proof.
  intros Hc Herr. unfold fetchFilteredInvoices, ITEMS_PER_PAGE. step_reader.
  rewrite Hc. cbn. by rewrite Herr.
Qed.

Lemma fetchInvoicesPages_error_throws (c : client) (query : string)
    (r : response unit) (e : db_error) :
  c (InvoicesHeadCount ("%" +:+ query +:+ "%")) = Resolved r -> error r = Some e ->
  result (fetchInvoicesPages query c) =
  Throw (Error "Failed to fetch total number of invoices.").
Proof.
  intros Hc Herr. unfold fetchInvoicesPages. step_reader. rewrite Hc. cbn.
  by rewrite Herr.
Qed.

Lemma fetchCustomers_error_throws (c : client) (r : response (list CustomerField))
    (e : db_error) :
  c CustomersByName = Resolved r -> error r = Some e ->
  result (fetchCustomers c) = Throw (Error "Failed to fetch all customers.").
Proof.
  intros Hc Herr. unfold fetchCustomers. step_reader. rewrite Hc. cbn.
  by rewrite Herr.
Qed.

Lemma fetchFilteredCustomers_error_throws formatCurrency (c : client) (query : string)
    (r : response (list Customer)) (e : db_error) :
  c (CustomersMatching
       ("name.ilike.%" +:+ query +:+ "%,email.ilike.%" +:+ query +:+ "%")) = Resolved r ->
  error r = Some e ->
  result (fetchFilteredCustomers formatCurrency query c) =
  Throw (Error "Failed to fetch customer table.").
Proof.
  intros Hc Herr. unfold fetchFilteredCustomers. step_reader. rewrite Hc. cbn.
  by rewrite Herr.
Qed.

Lemma fetchFilteredCustomers_invoice_error_throws formatCurrency (c : client)
    (query : string) (r : response (list Customer))
    (ri : response (list CustomerInvoice)) (customers : list Customer) (e : db_error) :
  c (CustomersMatching
       ("name.ilike.%" +:+ query +:+ "%,email.ilike.%" +:+ query +:+ "%")) = Resolved r ->
  error r = None ->
  data r = Some customers ->
  c (InvoicesOfCustomers (map c_id customers)) = Resolved ri ->
  error ri = Some e ->
  result (fetchFilteredCustomers formatCurrency query c) =
  Throw (Error "Failed to fetch invoices for customers.").
Proof.
  intros Hc Herr Hdata Hci Hcierr. unfold fetchFilteredCustomers. step_reader.
  rewrite Hc. cbn. rewrite Herr, Hdata, Hci. cbn. by rewrite Hcierr.
Qed.

(** A rejected promise does reach the [catch] clause of the invoice-by-id
    reader. *)
Lemma fetchInvoiceById_rejection_throws (c : client) (id : string) (cause : db_error) :
  c (InvoiceSingle id) = Rejected cause ->
  fetchInvoiceById id c =
  ([Query (InvoiceSingle id);
    ConsoleError "Error fetching invoice:" (Caught (Rejection cause))],
   Throw (Error "Failed to fetch invoice.")).
Proof.
  intros Hc. unfold fetchInvoiceById. step_reader. by rewrite Hc.
Qed.

(** An error value never does: whatever the response carries in [error], the
    reader looks at [data] only. *)
Lemma fetchInvoiceById_ignores_error (c : client) (id : string)
    (r : response InvoiceRow) :
  c (InvoiceSingle id) = Resolved r ->
  data r = None ->
  fetchInvoiceById id c = ([Query (InvoiceSingle id)], Return None).
Proof.
  intros Hc Hdata. unfold fetchInvoiceById. step_reader. rewrite Hc. cbn.
  by rewrite Hdata.
Qed.

(** C1. On a backend whose every read comes back with an error value, the
    other readers throw their generic error, but the invoice-by-id reader
    returns null: it logs nothing and throws nothing. *)
Theorem fetchInvoiceById_error_value_returns_null (e : db_error) (id query : string)
    (p : Z) (formatCurrency : Z -> string) :
  fetchInvoiceById id (failing e) = ([Query (InvoiceSingle id)], Return None) /\
  result (fetchRevenue (failing e)) = Throw (Error "Failed to fetch revenue data.") /\
  result (fetchLatestInvoices formatCurrency (failing e)) =
    Throw (Error "Failed to fetch the latest invoices.") /\
  result (fetchCardData (failing e)) = Throw (Error "Failed to fetch card data.") /\
  result (fetchFilteredInvoices query p (failing e)) =
    Throw (Error "Failed to fetch invoices.") /\
  result (fetchInvoicesPages query (failing e)) =
    Throw (Error "Failed to fetch total number of invoices.") /\
  result (fetchCustomers (failing e)) = Throw (Error "Failed to fetch all customers.") /\
  result (fetchFilteredCustomers formatCurrency query (failing e)) =
    Throw (Error "Failed to fetch customer table.").
Proof.
  repeat split; reflexivity.
Qed.

(** * Further properties of the readers *)

(** ** Revenue reader *)

(** X1. Whatever the client does, the revenue reader waits 3000 ms before it
    sends its one read, and the only exception it lets out is its generic
    error: a rejection of the client and the error it throws itself both end
    in its [catch] clause. *)
Theorem fetchRevenue_only_generic_error (c : client) :
  (exists rest,
     trace (fetchRevenue c) =
       ConsoleLog "Fetching revenue data..." :: Sleep 3000 :: Query RevenueAll :: rest) /\
  queries (fetchRevenue c) = [RevenueAll] /\
  (forall e, result (fetchRevenue c) = Throw e ->
     e = Error "Failed to fetch revenue data.").
Proof.
  unfold fetchRevenue. step_reader.
  destruct (c RevenueAll) as [[d [e|] cnt] | cause]; cbn;
    (split; [eexists; reflexivity|]); (split; [reflexivity|]);
    intros e' He'; congruence.
Qed.

(** X2. When the revenue read comes back with an error value, the reader logs
    twice before it throws its generic error: the error value at the test, and
    then, in the [catch] clause that receives the reader's own throw, the
    generic error itself. *)
Theorem fetchRevenue_error_logged_twice (c : client) (r : response (list Revenue))
    (e : db_error) :
  c RevenueAll = Resolved r ->
  error r = Some e ->
  fetchRevenue c =
  ([ ConsoleLog "Fetching revenue data...";
     Sleep 3000;
     Query RevenueAll;
     ConsoleError "Database Error:" (ErrorValue e);
     ConsoleError "Database Error:" (Caught (Error "Failed to fetch revenue data.")) ],
   Throw (Error "Failed to fetch revenue data.")).
Proof.
  intros Hc Herr. unfold fetchRevenue. step_reader. rewrite Hc. cbn.
  by rewrite Herr.
Qed.

Lemma fetchRevenue_error_logged_twice_witness :
  trace (fetchRevenue (failing "timeout")) =
  [ ConsoleLog "Fetching revenue data...";
    Sleep 3000;
    Query RevenueAll;
    ConsoleError "Database Error:" (ErrorValue "timeout");
    ConsoleError "Database Error:" (Caught (Error "Failed to fetch revenue data.")) ].
Proof.
  rewrite (fetchRevenue_error_logged_twice (failing "timeout")
             (mkResponse None (Some "timeout") None) "timeout" eq_refl eq_refl).
  reflexivity.
Defined.

(** ** Latest-invoices reader, continued *)

(** X3. When the read succeeds without data (no error, [data] null), the
    latest-invoices reader fails with a [TypeError] from iterating over null:
    it returns no list and logs nothing. *)
Theorem fetchLatestInvoices_null_data formatCurrency (c : client)
    (r : response (list LatestInvoiceRaw)) :
  c (InvoicesLatest 100) = Resolved r ->
  error r = None ->
  data r = None ->
  fetchLatestInvoices formatCurrency c = ([Query (InvoicesLatest 100)], Throw TypeError).
Proof.
  intros Hc Herr Hdata. unfold fetchLatestInvoices. step_reader. rewrite Hc. cbn.
  by rewrite Herr, Hdata.
Qed.

Lemma fetchLatestInvoices_null_data_witness :
  result (fetchLatestInvoices Js.toString silent) = Throw TypeError.
Proof.
  rewrite (fetchLatestInvoices_null_data Js.toString silent
             (mkResponse None None None) eq_refl eq_refl eq_refl).
  reflexivity.
Defined.

Lemma usable_customerId_spec (invoice : LatestInvoiceRaw) (cid : string) :
  usable_customerId invoice = Some cid <->
  customerId_of invoice = Some cid /\ Js.truthy cid = true.
Proof.
  unfold usable_customerId. destruct (customerId_of invoice) as [cid'|].
  - destruct (Js.truthy cid') eqn:Ht; split.
    + intros [= <-]. done.
    + intros [[= <-] _]. done.
    + discriminate.
    + intros [[= <-] Ht']. congruence.
  - split; [discriminate|]. intros [? _]. discriminate.
Qed.

(** Under the invariant, [seen] is the set of usable identifiers met so far. *)
Lemma seen_after_customer_ids (before : list LatestInvoiceRaw) (seen : gset string) :
  seen_after before seen -> seen = customer_ids before.
Proof.
  intros Hinv. apply set_eq. intros cid. rewrite (Hinv cid).
  unfold customer_ids. rewrite elem_of_list_to_set, list_elem_of_omap. split.
  - intros [Ht (r & Hr & Hid)]. exists r. split; [done|].
    by apply usable_customerId_spec.
  - intros (r & Hr & Hid). apply usable_customerId_spec in Hid as [Hid Ht].
    split; [done|]. by exists r.
Qed.

(** One turn of the loop keeps one row per identifier in [seen]. *)
Lemma latest_step_size before seen acc invoice :
  seen_after before seen ->
  length acc = size seen ->
  seen_after (before ++ [invoice]) (fst (latest_step (seen, acc) invoice)) /\
  length (snd (latest_step (seen, acc) invoice)) =
    size (fst (latest_step (seen, acc) invoice)).
Proof.
  intros Hinv Hsize. unfold latest_step.
  destruct (customerId_of invoice) as [cid|] eqn:Hid.
  - destruct (Js.truthy cid) eqn:Ht; cbn [andb].
    + destruct (bool_decide (cid ∈ seen)) eqn:Hs; cbn [negb fst snd].
      * split; [|done]. apply seen_after_skip; [done|].
        intros c' Hc' _. rewrite Hid in Hc'. injection Hc' as <-.
        by apply bool_decide_eq_true in Hs.
      * apply bool_decide_eq_false in Hs.
        split; [by apply seen_after_add|].
        rewrite length_app, size_union, size_singleton by set_solver.
        cbn [length]. lia.
    + cbn [fst snd]. split; [|done]. apply seen_after_skip; [done|].
      intros c' Hc' Ht'. rewrite Hid in Hc'. injection Hc' as <-. congruence.
  - cbn [fst snd]. split; [|done]. apply seen_after_skip; [done|].
    intros c' Hc'. congruence.
Qed.

Lemma fold_latest_step_size rest : forall before seen acc,
  seen_after before seen ->
  length acc = size seen ->
  seen_after (before ++ rest) (fst (fold_left latest_step rest (seen, acc))) /\
  length (snd (fold_left latest_step rest (seen, acc))) =
    size (fst (fold_left latest_step rest (seen, acc))).
Proof.
  induction rest as [|x rest IH]; intros before seen acc Hinv Hsize; cbn [fold_left].
  - by rewrite app_nil_r.
  - replace (before ++ x :: rest) with ((before ++ [x]) ++ rest)
      by (by rewrite <- app_assoc).
    destruct (latest_step_size before seen acc x Hinv Hsize) as [Hinv' Hsize'].
    destruct (latest_step (seen, acc) x) as [seen' acc'].
    by apply IH.
Qed.

(** X4. On a successful read of the rows [d], the latest-invoices reader
    returns exactly one row per distinct usable customer identifier of [d]:
    the number of rows it returns is the number of distinct non-null,
    non-empty identifiers of the joined customers. *)
Theorem fetchLatestInvoices_one_row_per_customer formatCurrency (c : client)
    (r : response (list LatestInvoiceRaw)) (d : list LatestInvoiceRaw) :
  c (InvoicesLatest 100) = Resolved r ->
  error r = None ->
  data r = Some d ->
  exists out : list LatestInvoice,
    result (fetchLatestInvoices formatCurrency c) = Return out /\
    length out = size (customer_ids d) /\
    (length out <= length d)%nat.
Proof.
  intros Hc Herr Hdata. eexists.
  split; [by apply (fetchLatestInvoices_returns _ c r d)|].
  rewrite length_map.
  destruct (fold_latest_step_size d [] ∅ [] seen_after_nil eq_refl) as [Hinv Hsize].
  apply seen_after_customer_ids in Hinv. cbn [app] in Hinv.
  unfold latestByCustomer at 1. rewrite Hsize, Hinv. split; [reflexivity|].
  rewrite latestByCustomer_first_per_customer.
  apply sublist_length, first_per_customer_from_sublist.
Qed.

Lemma fetchLatestInvoices_one_row_per_customer_witness :
  exists out : list LatestInvoice,
    result (fetchLatestInvoices Js.toString (serve sample_tables)) = Return out /\
    length out = 1%nat.
Proof.
  destruct (fetchLatestInvoices_one_row_per_customer Js.toString (serve sample_tables)
              (mkResponse (Some (tb_latest sample_tables)) None None)
              (tb_latest sample_tables) eq_refl eq_refl eq_refl)
    as (out & Hres & Hlen & _).
  exists out. split; [exact Hres|]. rewrite Hlen. by vm_compute.
Defined.

(** Rows with pairwise distinct usable identifiers, none of which occurs in
    [before], are all kept. *)
Lemma first_per_customer_from_fixed (l : list LatestInvoiceRaw) : forall before,
  NoDup (map customerId_of l) ->
  (forall r, r ∈ l -> first_of_customer before r = true) ->
  first_per_customer_from before l = l.
Proof.
  induction l as [|x l IH]; intros before Hnodup Hfirst;
    cbn [first_per_customer_from]; [done|].
  rewrite (Hfirst x) by apply list_elem_of_here. cbn [app]. f_equal.
  cbn [map] in Hnodup. apply NoDup_cons in Hnodup as [Hx Hnodup].
  apply IH; [done|]. intros r Hr.
  pose proof (Hfirst r (list_elem_of_further _ _ _ Hr)) as Hf.
  apply first_of_customer_spec in Hf as (cid & Hid & Ht & Hall).
  apply first_of_customer_spec. exists cid. repeat split; [done..|].
  intros b Hb. apply elem_of_app in Hb as [Hb | Hb]; [by apply Hall|].
  apply list_elem_of_singleton in Hb. subst b. intros Heq.
  apply Hx. rewrite Heq, <- Hid. apply list_elem_of_fmap. by exists r.
Qed.

(** X5. Deduplicating twice is deduplicating once: the rows the
    latest-invoices loop keeps are all kept when the loop runs over them
    again. *)
Theorem latestByCustomer_idempotent (d : list LatestInvoiceRaw) :
  latestByCustomer (latestByCustomer d) = latestByCustomer d.
Proof.
  rewrite (latestByCustomer_first_per_customer (latestByCustomer d)).
  rewrite (latestByCustomer_first_per_customer d).
  unfold first_per_customer at 1.
  apply first_per_customer_from_fixed.
  - apply first_per_customer_from_NoDup.
  - intros r Hr. apply first_per_customer_from_elem in Hr as (i & _ & Hf).
    apply first_of_customer_spec in Hf as (cid & Hid & Ht & _).
    apply first_of_customer_spec. exists cid. repeat split; [done..|].
    intros b Hb. inversion Hb.
Qed.

Lemma first_per_customer_from_app (d1 d2 : list LatestInvoiceRaw) : forall before,
  first_per_customer_from before (d1 ++ d2) =
  first_per_customer_from before d1 ++ first_per_customer_from (before ++ d1) d2.
Proof.
  induction d1 as [|x d1 IH]; intros before; cbn [app first_per_customer_from].
  - by rewrite app_nil_r.
  - rewrite IH, <- !app_assoc. reflexivity.
Qed.

(** X6. The rows kept from a list are kept, in the same places, when more
    rows follow: the rows kept from [d1] are a prefix of the rows kept from
    [d1 ++ d2], and the rows added after them are rows of [d2] whose customer
    did not occur in [d1]. *)
Theorem latestByCustomer_app (d1 d2 : list LatestInvoiceRaw) :
  latestByCustomer (d1 ++ d2) =
    latestByCustomer d1 ++ first_per_customer_from d1 d2 /\
  latestByCustomer d1 `prefix_of` latestByCustomer (d1 ++ d2) /\
  (forall r, r ∈ first_per_customer_from d1 d2 ->
     r ∈ d2 /\ forall b, b ∈ d1 -> customerId_of b <> customerId_of r).
Proof.
  rewrite !latestByCustomer_first_per_customer. unfold first_per_customer.
  rewrite first_per_customer_from_app. cbn [app].
  split; [reflexivity|]. split; [by eexists|].
  intros r Hr. apply first_per_customer_from_elem in Hr as (i & Hi & Hf).
  split; [by apply list_elem_of_lookup_2 in Hi|].
  apply first_of_customer_spec in Hf as (cid & Hid & _ & Hall).
  intros b Hb. rewrite Hid. apply Hall. apply elem_of_app. by left.
Qed.

Lemma shape_latest_shaped_from formatCurrency before (invoice : LatestInvoiceRaw) :
  first_of_customer before invoice = true ->
  shaped_from formatCurrency invoice (shape_latest formatCurrency invoice).
Proof.
  intros Hf.
  apply first_of_customer_has_customer in Hf as (customer & cid & Hj & Hid & Hne).
  exists customer, cid. unfold shape_latest. rewrite Hj. cbn.
  repeat split; done.
Qed.

(** X7. On a successful read, every row the latest-invoices reader returns
    comes, position by position, from a kept row that has a joined customer
    with a non-empty identifier; it carries the invoice id, the formatted
    amount, and the customer's name, image and email, each replaced by the
    empty string only when that field itself is null. *)
Theorem fetchLatestInvoices_shape formatCurrency (c : client)
    (r : response (list LatestInvoiceRaw)) (d : list LatestInvoiceRaw) :
  c (InvoicesLatest 100) = Resolved r ->
  error r = None ->
  data r = Some d ->
  exists out : list LatestInvoice,
    result (fetchLatestInvoices formatCurrency c) = Return out /\
    Forall2 (shaped_from formatCurrency) (latestByCustomer d) out.
Proof.
  intros Hc Herr Hdata. eexists.
  split; [by apply (fetchLatestInvoices_returns _ c r d)|].
  apply Forall2_fmap_r, Forall_Forall2_diag, Forall_forall.
  intros inv Hin. rewrite latestByCustomer_first_per_customer in Hin.
  apply first_per_customer_from_elem in Hin as (i & _ & Hf).
  by apply (shape_latest_shaped_from _ _ _ Hf).
Qed.

Lemma fetchLatestInvoices_shape_witness :
  exists out : list LatestInvoice,
    result (fetchLatestInvoices Js.toString (serve sample_tables)) = Return out /\
    Forall2 (shaped_from Js.toString) (latestByCustomer (tb_latest sample_tables)) out.
Proof.
  exact (fetchLatestInvoices_shape Js.toString (serve sample_tables)
           (mkResponse (Some (tb_latest sample_tables)) None None)
           (tb_latest sample_tables) eq_refl eq_refl eq_refl).
Defined.

(** ** Card-summary reader, continued *)

(** X8. When the invoice read of the card-summary reader comes back with an
    error value, the reader logs it and throws its generic error at once: the
    customer count is never requested. *)
Theorem fetchCardData_aborts_before_count (c : client)
    (r : response (list AmountStatus)) (e : db_error) :
  c InvoicesAmountStatus = Resolved r ->
  error r = Some e ->
  fetchCardData c =
  ([ Query InvoicesAmountStatus; ConsoleError "Database Error:" (ErrorValue e) ],
   Throw (Error "Failed to fetch card data.")).
Proof.
  intros Hc Herr. unfold fetchCardData. step_reader. rewrite Hc. cbn.
  by rewrite Herr.
Qed.

Lemma fetchCardData_aborts_before_count_witness :
  queries (fetchCardData (failing "timeout")) = [InvoicesAmountStatus].
Proof.
  rewrite (fetchCardData_aborts_before_count (failing "timeout")
             (mkResponse None (Some "timeout") None) "timeout" eq_refl eq_refl).
  reflexivity.
Defined.

(** X9. When the invoice read succeeds and the customer count comes back with
    an error value, the card-summary reader throws the generic count error:
    the totals it has already summed are not returned, whatever the invoices
    were. *)
Theorem fetchCardData_count_error_discards_totals (c : client)
    (r : response (list AmountStatus)) (rc : response unit) (e : db_error) :
  c InvoicesAmountStatus = Resolved r ->
  error r = None ->
  c CustomersHeadCount = Resolved rc ->
  error rc = Some e ->
  fetchCardData c =
  ([ Query InvoicesAmountStatus; Query CustomersHeadCount;
     ConsoleError "Database Error:" (ErrorValue e) ],
   Throw (Error "Failed to fetch customer count.")).
Proof.
  intros Hc Herr Hcc Hcerr. unfold fetchCardData. step_reader. rewrite Hc. cbn.
  rewrite Herr. destruct (data r); rewrite ?fold_card_step, Hcc; cbn;
    by rewrite Hcerr.
Qed.

Lemma fetchCardData_count_error_discards_totals_witness :
  result (fetchCardData (serve_second_failing sample_tables "timeout")) =
  Throw (Error "Failed to fetch customer count.").
Proof.
  rewrite (fetchCardData_count_error_discards_totals
             (serve_second_failing sample_tables "timeout")
             (mkResponse (Some (tb_amounts sample_tables)) None None)
             (mkResponse None (Some "timeout") None) "timeout"
             eq_refl eq_refl eq_refl eq_refl).
  reflexivity.
Defined.

(** X10. When the invoice read succeeds without data ([data] null, no error),
    the card-summary reader does not fail: it reports zero for both totals and
    for the number of invoices, next to the customer count. *)
Theorem fetchCardData_null_data (c : client) (r : response (list AmountStatus))
    (rc : response unit) :
  c InvoicesAmountStatus = Resolved r ->
  error r = None ->
  data r = None ->
  c CustomersHeadCount = Resolved rc ->
  error rc = None ->
  result (fetchCardData c) =
  Return {| totalPaidInvoices := 0;
            totalPendingInvoices := 0;
            numberOfInvoices := 0;
            numberOfCustomers := count rc ?? 0 |}.
Proof.
  intros Hc Herr Hdata Hcc Hcerr. unfold fetchCardData. step_reader.
  rewrite Hc. cbn. rewrite Herr, Hdata, Hcc. cbn. by rewrite Hcerr.
Qed.

Lemma fetchCardData_null_data_witness :
  result (fetchCardData silent) =
  Return {| totalPaidInvoices := 0;
            totalPendingInvoices := 0;
            numberOfInvoices := 0;
            numberOfCustomers := 0 |}.
Proof.
  exact (fetchCardData_null_data silent (mkResponse None None None)
           (mkResponse None None None) eq_refl eq_refl eq_refl eq_refl eq_refl).
Defined.

Lemma sum_amounts_where_Permutation status (d d' : list AmountStatus) :
  Permutation d d' -> sum_amounts_where status d = sum_amounts_where status d'.
Proof.
  induction 1 as [| x l l' _ IH | x y l | l l' l'' _ IH1 _ IH2];
    cbn [sum_amounts_where]; lia.
Qed.

(** X11. The card summary does not depend on the order in which the backend
    returns the invoices: two successful runs whose invoice rows are
    permutations of each other, with the same customer count, return the same
    record. *)
Theorem fetchCardData_order_independent (c c' : client)
    (r r' : response (list AmountStatus)) (rc rc' : response unit)
    (d d' : list AmountStatus) :
  c InvoicesAmountStatus = Resolved r -> error r = None -> data r = Some d ->
  c CustomersHeadCount = Resolved rc -> error rc = None ->
  c' InvoicesAmountStatus = Resolved r' -> error r' = None -> data r' = Some d' ->
  c' CustomersHeadCount = Resolved rc' -> error rc' = None ->
  Permutation d d' ->
  count rc = count rc' ->
  result (fetchCardData c) = result (fetchCardData c').
Proof.
  intros Hc Herr Hdata Hcc Hcerr Hc' Herr' Hdata' Hcc' Hcerr' Hperm Hcount.
  rewrite (fetchCardData_returns c r rc d), (fetchCardData_returns c' r' rc' d')
    by done.
  rewrite (sum_amounts_where_Permutation "paid" d d' Hperm).
  rewrite (sum_amounts_where_Permutation "pending" d d' Hperm).
  by rewrite (Permutation_length Hperm), Hcount.
Qed.

Lemma fetchCardData_order_independent_witness :
  result (fetchCardData (serve sample_tables)) =
  result (fetchCardData
            (serve (mkTables [] (rev (tb_amounts sample_tables)) None [] None None [] []))).
Proof.
  apply (fetchCardData_order_independent (serve sample_tables)
           (serve (mkTables [] (rev (tb_amounts sample_tables)) None [] None None [] []))
           (mkResponse (Some (tb_amounts sample_tables)) None None)
           (mkResponse (Some (rev (tb_amounts sample_tables))) None None)
           (mkResponse None None None) (mkResponse None None None)
           (tb_amounts sample_tables) (rev (tb_amounts sample_tables)));
    try reflexivity.
  apply Permutation_rev.
Defined.

(** ** Filtered-invoices reader, continued *)

(** The value the filtered-invoices reader returns on a successful read. *)
Lemma fetchFilteredInvoices_returns (c : client) (query : string) (p : Z)
    (r : response (list InvoiceRaw)) :
  c (InvoicesRange ("%" +:+ query +:+ "%") ((p - 1) * 6) ((p - 1) * 6 + 6 - 1))
    = Resolved r ->
  error r = None ->
  result (fetchFilteredInvoices query p c) =
  Return (List.filter (matches_query query) (map flatten_invoice (data r ?? []))).
Proof.
  intros Hc Herr. unfold fetchFilteredInvoices, ITEMS_PER_PAGE. step_reader.
  rewrite Hc. cbn. by rewrite Herr.
Qed.

(** The one read the filtered-invoices reader sends. *)
Lemma fetchFilteredInvoices_queries (c : client) (query : string) (p : Z) :
  queries (fetchFilteredInvoices query p c) =
  [InvoicesRange ("%" +:+ query +:+ "%") ((p - 1) * 6) ((p - 1) * 6 + 6 - 1)].
Proof.
  unfold fetchFilteredInvoices, ITEMS_PER_PAGE. step_reader.
  destruct (c (InvoicesRange ("%" +:+ query +:+ "%") ((p - 1) * 6)
                 ((p - 1) * 6 + 6 - 1)))
    as [[d [e|] cnt] | cause]; reflexivity.
Qed.

Lemma includes_empty (s : string) : Js.includes s "" = true.
Proof. destruct s; reflexivity. Qed.

Lemma filter_all_true {A : Type} (f : A -> bool) (l : list A) :
  (forall x, f x = true) -> List.filter f l = l.
Proof.
  intros Hf. induction l as [|x l IH]; cbn [List.filter]; [done|].
  by rewrite Hf, IH.
Qed.


(** X12. With the empty query, the client-side filter of the
    filtered-invoices reader keeps every row: on a successful read the reader
    returns all the rows of the page, flattened, in the order of the backend
    (and the empty list when [data] is null). *)
Theorem fetchFilteredInvoices_empty_query (c : client) (p : Z)
    (r : response (list InvoiceRaw)) :
  c (InvoicesRange "%%" ((p - 1) * 6) ((p - 1) * 6 + 6 - 1)) = Resolved r ->
  error r = None ->
  result (fetchFilteredInvoices "" p c) =
    Return (map flatten_invoice (data r ?? [])) /\
  (data r = None -> result (fetchFilteredInvoices "" p c) = Return []).
Proof.
  intros Hc Herr.
  assert (Hres : result (fetchFilteredInvoices "" p c) =
                 Return (map flatten_invoice (data r ?? []))).
  { rewrite (fetchFilteredInvoices_returns c "" p r Hc Herr).
    rewrite filter_all_true; [reflexivity|].
    intros row. unfold matches_query. cbn [Js.toLowerCase].
    by rewrite includes_empty. }
  split; [exact Hres|]. intros Hdata. by rewrite Hres, Hdata.
Qed.

Lemma fetchFilteredInvoices_empty_query_witness :
  result (fetchFilteredInvoices "" 1 (serve sample_tables)) =
  Return (map flatten_invoice (tb_page sample_tables)).
Proof.
  exact (proj1 (fetchFilteredInvoices_empty_query (serve sample_tables) 1
                  (mkResponse (Some (tb_page sample_tables)) None None)
                  eq_refl eq_refl)).
Defined.





(** ** Page count and pages together *)

(** X15. The page count matches the ranges of the pages.  When the count read
    succeeds with a count [n], every row offset below [n] falls in the range
    that the filtered-invoices reader requests for some page between 1 and the
    page count, and the last page is not empty: its range starts below [n]. *)
Theorem pages_cover_count (c : client) (query : string) (r : response unit) (n : Z) :
  c (InvoicesHeadCount ("%" +:+ query +:+ "%")) = Resolved r ->
  error r = None ->
  count r = Some n ->
  exists totalPages : Z,
    result (fetchInvoicesPages query c) = Return totalPages /\
    (forall k, 0 <= k < n ->
       exists page from to,
         1 <= page <= totalPages /\
         queries (fetchFilteredInvoices query page c) =
           [InvoicesRange ("%" +:+ query +:+ "%") from to] /\
         from <= k <= to) /\
    (0 < n -> 0 <= (totalPages - 1) * 6 < n).
Proof.
  intros Hc Herr Hcount.
  exists (Math_ceil (inject_Z n / inject_Z ITEMS_PER_PAGE)%Q).
  pose proof (Math_ceil_bounds n) as Hb. cbv zeta in Hb.
  split.
  - unfold fetchInvoicesPages. step_reader. rewrite Hc. cbn.
    by rewrite Herr, Hcount.
  - split; [|lia].
    intros k Hk.
    exists (k / 6 + 1), ((k / 6 + 1 - 1) * 6), ((k / 6 + 1 - 1) * 6 + 6 - 1).
    pose proof (Z.div_mod k 6 ltac:(lia)) as Hdm.
    pose proof (Z.mod_pos_bound k 6 ltac:(lia)) as Hmod.
    split; [lia|]. split; [apply fetchFilteredInvoices_queries | lia].
Qed.

Lemma pages_cover_count_witness :
  exists totalPages : Z,
    result (fetchInvoicesPages "lee" (serve sample_tables)) = Return totalPages /\
    0 <= (totalPages - 1) * 6 < 7.
Proof.
  destruct (pages_cover_count (serve sample_tables) "lee"
              (mkResponse None None (Some 7)) 7 eq_refl eq_refl eq_refl)
    as (totalPages & Hres & _ & Hlast).
  exists totalPages. split; [exact Hres|]. apply Hlast. lia.
Defined.

(** ** Which fields the client-side filter matches without regard to case *)

Lemma caseless_digit_or_minus (a : ascii) :
  In a ["0"; "1"; "2"; "3"; "4"; "5"; "6"; "7"; "8"; "9"; "-"]%char -> caseless a.
Proof.
  intros Hin. cbn [In] in Hin.
  repeat (destruct Hin as [<- | Hin]); try contradiction;
    (split; [reflexivity|]);
    intros [[|] [|] [|] [|] [|] [|] [|] [|]]; cbn; intros H;
    first [reflexivity | discriminate H].
Qed.

Lemma digits_caseless (d : Decimal.uint) :
  Forall caseless (list_ascii_of_string (NilEmpty.string_of_uint d)).
Proof.
  induction d; cbn [NilEmpty.string_of_uint list_ascii_of_string];
    [constructor|..];
    (constructor; [apply caseless_digit_or_minus; cbn; tauto | exact IHd]).
Qed.

Lemma toString_caseless (n : Z) :
  Forall caseless (list_ascii_of_string (Js.toString n)).
Proof.
  unfold Js.toString, NilZero.string_of_int, NilZero.string_of_uint.
  destruct (Z.to_int n) as [d | d];
    [|cbn [list_ascii_of_string]; constructor;
      [apply caseless_digit_or_minus; cbn; tauto|]];
    (destruct d;
     [repeat constructor; apply caseless_digit_or_minus; cbn; tauto
     | apply digits_caseless ..]).
Qed.

Lemma prefix_caseless (s : string) : forall q : string,
  Forall caseless (list_ascii_of_string s) ->
  String.prefix (Js.toLowerCase q) s = String.prefix q s.
Proof.
  induction s as [|b s IH]; intros [|a q] Hs;
    cbn [String.prefix Js.toLowerCase]; try reflexivity.
  cbn [list_ascii_of_string] in Hs. inversion Hs as [|? ? [Hfix Hpre] Hs']; subst.
  destruct (ascii_dec a b) as [-> | Hne].
  - rewrite Hfix. destruct (ascii_dec b b); [|done]. by apply IH.
  - destruct (ascii_dec (Js.lower_ascii a) b) as [Heq | _]; [|reflexivity].
    by apply Hpre in Heq.
Qed.

Lemma includes_caseless (s q : string) :
  Forall caseless (list_ascii_of_string s) ->
  Js.includes s (Js.toLowerCase q) = Js.includes s q.
Proof.
  induction s as [|b s IH]; intros Hs; cbn [Js.includes].
  - by rewrite (prefix_caseless EmptyString q Hs).
  - rewrite (prefix_caseless (String b s) q Hs). f_equal. apply IH.
    cbn [list_ascii_of_string] in Hs. by inversion Hs.
Qed.

(** The amount test of the filter, which folds neither side, is a
    case-insensitive test all the same: an amount is rendered in digits. *)
Lemma amount_test_case_insensitive (n : Z) (query : string) :
  Js.includes (Js.toString n) query = includes_ci (Js.toString n) query.
Proof.
  unfold includes_ci.
  by rewrite toLowerCase_toString, (includes_caseless _ _ (toString_caseless n)).
Qed.

(** X16. On a successful read, the filtered-invoices reader keeps every row
    of the page in which the query is a case-insensitive substring of the
    customer email or of the amount rendered in decimal, capital letters in
    the query or not. *)
Theorem fetchFilteredInvoices_keeps_email_amount_matches (c : client)
    (query : string) (p : Z) (r : response (list InvoiceRaw)) :
  c (InvoicesRange ("%" +:+ query +:+ "%") ((p - 1) * 6) ((p - 1) * 6 + 6 - 1))
    = Resolved r ->
  error r = None ->
  exists out : list InvoicesTable,
    result (fetchFilteredInvoices query p c) = Return out /\
    (forall inv, inv ∈ data r ?? [] ->
       includes_ci (it_email (flatten_invoice inv)) query = true \/
       includes_ci (Js.toString (ir_amount inv)) query = true ->
       flatten_invoice inv ∈ out).
Proof.
  intros Hc Herr. eexists.
  split; [by apply (fetchFilteredInvoices_returns c query p r)|].
  intros inv Hinv Hmatch. apply list_elem_of_In, filter_In. split.
  - apply in_map. by apply list_elem_of_In.
  - unfold matches_query. rewrite !orb_true_iff.
    destruct Hmatch as [Hemail | Hamount].
    + by left; left; left; left.
    + left; left; left; right.
      by rewrite amount_test_case_insensitive.
Qed.

Lemma fetchFilteredInvoices_keeps_email_amount_matches_witness :
  exists out : list InvoicesTable,
    result (fetchFilteredInvoices "BURNS" 1 (serve sample_tables)) = Return out /\
    mkInvoicesTable "i-1" 500 "2024-01-01" "paid" "Amy Burns" "contact@burns.test" ""
      ∈ out.
Proof.
  destruct (fetchFilteredInvoices_keeps_email_amount_matches (serve sample_tables)
              "BURNS" 1 (mkResponse (Some (tb_page sample_tables)) None None)
              eq_refl eq_refl)
    as (out & Hres & Hkeep).
  exists out. split; [exact Hres|].
  apply (Hkeep (mkInvoiceRaw "i-1" 500 "2024-01-01" "paid"
                  (JoinOne (mkCustomerInfo (Some "Amy Burns")
                              (Some "contact@burns.test") None)))).
  - apply list_elem_of_here.
  - left. reflexivity.
Defined.

(** ** Invoice-by-id reader, continued *)

(** X17. The invoice-by-id reader throws only when the promise of its read
    rejects, and then it logs the original cause and throws its generic error;
    no other exception leaves it.  A response that resolves, with or without
    an error value, never makes it throw. *)
Theorem fetchInvoiceById_throws_only_on_rejection (c : client) (id : string) :
  (forall e, result (fetchInvoiceById id c) = Throw e ->
     e = Error "Failed to fetch invoice." /\
     exists cause, c (InvoiceSingle id) = Rejected cause) /\
  (forall cause, c (InvoiceSingle id) = Rejected cause ->
     fetchInvoiceById id c =
     ([ Query (InvoiceSingle id);
        ConsoleError "Error fetching invoice:" (Caught (Rejection cause)) ],
      Throw (Error "Failed to fetch invoice."))).
Proof.
  unfold fetchInvoiceById. step_reader.
  destruct (c (InvoiceSingle id)) as [[[d|] e cnt] | cause]; cbn; split;
    try (intros e' He'; discriminate He');
    try (intros cause' Hc'; discriminate Hc').
  - intros e' [= <-]. split; [reflexivity | exists cause; reflexivity].
  - by intros cause' [= <-].
Qed.

(** ** Filtered-customers reader, continued *)

(** The callback of the aggregation writes nothing to the console and sends
    no read. *)
Lemma map_eff_aggregate_trace formatCurrency (invoices : option (list CustomerInvoice))
    (customers : list Customer) (c : client) :
  fst (map_eff (aggregate_customer formatCurrency invoices) customers c) = [].
Proof.
  destruct invoices as [invoices|].
  - by rewrite (map_eff_pure _ (customer_summary formatCurrency invoices) c customers
                  (fun customer => aggregate_customer_summary _ invoices customer c)).
  - by destruct customers.
Qed.

(** The value the filtered-customers reader returns when both reads succeed. *)
Lemma fetchFilteredCustomers_returns formatCurrency (c : client) (query : string)
    (r : response (list Customer)) (ri : response (list CustomerInvoice))
    (customers : list Customer) (invoices : list CustomerInvoice) :
  c (CustomersMatching
       ("name.ilike.%" +:+ query +:+ "%,email.ilike.%" +:+ query +:+ "%")) = Resolved r ->
  error r = None ->
  data r = Some customers ->
  c (InvoicesOfCustomers (map c_id customers)) = Resolved ri ->
  error ri = None ->
  data ri = Some invoices ->
  result (fetchFilteredCustomers formatCurrency query c) =
  Return (map (customer_summary formatCurrency invoices) customers).
Proof.
  intros Hc Herr Hdata Hci Hcierr Hcidata.
  unfold fetchFilteredCustomers. step_reader.
  rewrite Hc. cbn. rewrite Herr, Hdata, Hci. cbn. rewrite Hcierr, Hcidata.
  rewrite (map_eff_pure _ (customer_summary formatCurrency invoices));
    [reflexivity|].
  intros customer. apply aggregate_customer_summary.
Qed.

(** X18. Once the customer read has succeeded with the customers
    [customers], the filtered-customers reader sends exactly one more read,
    for the invoices whose owner is among the identifiers of [customers], in
    their order; it asks for no other invoices, whatever that second read
    answers. *)
Theorem fetchFilteredCustomers_requests_matched_invoices formatCurrency (c : client)
    (query : string) (r : response (list Customer)) (customers : list Customer) :
  c (CustomersMatching
       ("name.ilike.%" +:+ query +:+ "%,email.ilike.%" +:+ query +:+ "%")) = Resolved r ->
  error r = None ->
  data r = Some customers ->
  queries (fetchFilteredCustomers formatCurrency query c) =
  [ CustomersMatching
      ("name.ilike.%" +:+ query +:+ "%,email.ilike.%" +:+ query +:+ "%");
    InvoicesOfCustomers (map c_id customers) ].
Proof.
  intros Hc Herr Hdata. unfold fetchFilteredCustomers. step_reader.
  rewrite Hc. cbn. rewrite Herr, Hdata.
  destruct (c (InvoicesOfCustomers (map c_id customers)))
    as [[invoices [e|] cnt] | cause]; cbn; try reflexivity.
  pose proof (map_eff_aggregate_trace formatCurrency invoices customers c) as Htr.
  destruct (map_eff (aggregate_customer formatCurrency invoices) customers c)
    as [t o]. cbn in Htr. subst t. reflexivity.
Qed.

Lemma fetchFilteredCustomers_requests_matched_invoices_witness :
  queries (fetchFilteredCustomers Js.toString "o" (serve two_customer_tables)) =
  [ CustomersMatching "name.ilike.%o%,email.ilike.%o%";
    InvoicesOfCustomers ["c-acme"; "c-bolt"] ].
Proof.
  exact (fetchFilteredCustomers_requests_matched_invoices Js.toString
           (serve two_customer_tables) "o"
           (mkResponse (Some (tb_customers two_customer_tables)) None None)
           (tb_customers two_customer_tables) eq_refl eq_refl eq_refl).
Defined.

(** X19. When the invoice read of the filtered-customers reader succeeds
    without data ([data] null, no error), the outcome depends on the matched
    customers: with none, the reader returns the empty list; with at least
    one, it fails with a [TypeError] from filtering null. *)
Theorem fetchFilteredCustomers_null_invoices formatCurrency (c : client)
    (query : string) (r : response (list Customer))
    (ri : response (list CustomerInvoice)) (customers : list Customer) :
  c (CustomersMatching
       ("name.ilike.%" +:+ query +:+ "%,email.ilike.%" +:+ query +:+ "%")) = Resolved r ->
  error r = None ->
  data r = Some customers ->
  c (InvoicesOfCustomers (map c_id customers)) = Resolved ri ->
  error ri = None ->
  data ri = None ->
  (customers = [] ->
   result (fetchFilteredCustomers formatCurrency query c) = Return []) /\
  (customers <> [] ->
   result (fetchFilteredCustomers formatCurrency query c) = Throw TypeError).
Proof.
  intros Hc Herr Hdata Hci Hcierr Hcidata.
  unfold fetchFilteredCustomers. step_reader.
  rewrite Hc. cbn. rewrite Herr, Hdata, Hci. cbn. rewrite Hcierr, Hcidata.
  split.
  - intros ->. reflexivity.
  - intros Hne. destruct customers as [|customer customers]; [done|]. reflexivity.
Qed.

Lemma fetchFilteredCustomers_null_invoices_witness :
  result (fetchFilteredCustomers Js.toString "acme" (serve_null_invoices sample_tables))
  = Throw TypeError.
Proof.
  apply (proj2 (fetchFilteredCustomers_null_invoices Js.toString
                  (serve_null_invoices sample_tables) "acme"
                  (mkResponse (Some (tb_customers sample_tables)) None None)
                  (mkResponse None None None)
                  (tb_customers sample_tables)
                  eq_refl eq_refl eq_refl eq_refl eq_refl eq_refl)).
  discriminate.
Defined.

Lemma invoices_of_none (id : string) (invoices : list CustomerInvoice) :
  (forall inv, inv ∈ invoices -> cinv_customer_id inv <> id) ->
  invoices_of id invoices = 0.
Proof.
  induction invoices as [|inv invoices IH]; intros Hnone; cbn [invoices_of]; [done|].
  rewrite (proj2 (String.eqb_neq _ _) (Hnone inv (list_elem_of_here _ _))).
  rewrite IH; [done|]. intros inv' Hin. apply Hnone. by apply list_elem_of_further.
Qed.

Lemma customer_total_none (id status : string) (invoices : list CustomerInvoice) :
  (forall inv, inv ∈ invoices -> cinv_customer_id inv <> id) ->
  customer_total id status invoices = 0.
Proof.
  induction invoices as [|inv invoices IH]; intros Hnone; cbn [customer_total]; [done|].
  rewrite (proj2 (String.eqb_neq _ _) (Hnone inv (list_elem_of_here _ _))).
  cbn [andb]. rewrite IH; [done|].
  intros inv' Hin. apply Hnone. by apply list_elem_of_further.
Qed.

(** X20. A matched customer who owns none of the fetched invoices is not
    left out: when both reads succeed, the row at the customer's position
    carries the customer's fields, 0 invoices, and both totals formatted
    from 0. *)
Theorem fetchFilteredCustomers_customer_without_invoices formatCurrency (c : client)
    (query : string) (r : response (list Customer))
    (ri : response (list CustomerInvoice)) (customers : list Customer)
    (invoices : list CustomerInvoice) (i : nat) (customer : Customer) :
  c (CustomersMatching
       ("name.ilike.%" +:+ query +:+ "%,email.ilike.%" +:+ query +:+ "%")) = Resolved r ->
  error r = None ->
  data r = Some customers ->
  c (InvoicesOfCustomers (map c_id customers)) = Resolved ri ->
  error ri = None ->
  data ri = Some invoices ->
  customers !! i = Some customer ->
  (forall inv, inv ∈ invoices -> cinv_customer_id inv <> c_id customer) ->
  exists out : list CustomersTableType,
    result (fetchFilteredCustomers formatCurrency query c) = Return out /\
    length out = length customers /\
    out !! i = Some {| ct_id := c_id customer;
                       ct_name := c_name customer;
                       ct_email := c_email customer;
                       ct_image_url := c_image_url customer;
                       ct_total_invoices := 0;
                       ct_total_pending := formatCurrency 0;
                       ct_total_paid := formatCurrency 0 |}.
Proof.
  intros Hc Herr Hdata Hci Hcierr Hcidata Hi Hnone. eexists.
  split; [by apply (fetchFilteredCustomers_returns _ c query r ri customers invoices)|].
  split; [apply length_map|].
  change (map (customer_summary formatCurrency invoices) customers)
    with (customer_summary formatCurrency invoices <$> customers).
  rewrite list_lookup_fmap, Hi. cbn. unfold customer_summary.
  by rewrite (invoices_of_none _ _ Hnone), !(customer_total_none _ _ _ Hnone).
Qed.

Lemma fetchFilteredCustomers_customer_without_invoices_witness :
  exists out : list CustomersTableType,
    result (fetchFilteredCustomers Js.toString "o" (serve two_customer_tables))
      = Return out /\
    out !! 1%nat = Some {| ct_id := "c-bolt";
                           ct_name := "Bolt";
                           ct_email := "pay@bolt.test";
                           ct_image_url := "/bolt.png";
                           ct_total_invoices := 0;
                           ct_total_pending := "0";
                           ct_total_paid := "0" |}.
Proof.
  destruct (fetchFilteredCustomers_customer_without_invoices Js.toString
              (serve two_customer_tables) "o"
              (mkResponse (Some (tb_customers two_customer_tables)) None None)
              (mkResponse (Some (tb_customer_invoices two_customer_tables)) None None)
              (tb_customers two_customer_tables)
              (tb_customer_invoices two_customer_tables)
              1%nat (mkCustomer "c-bolt" "Bolt" "pay@bolt.test" "/bolt.png")
              eq_refl eq_refl eq_refl eq_refl eq_refl eq_refl eq_refl)
    as (out & Hres & _ & Hrow).
  - intros inv Hin. apply list_elem_of_In in Hin. cbn in Hin.
    destruct Hin as [<- | [<- | [<- | []]]]; discriminate.
  - exists out. split; [exact Hres | exact Hrow].
Defined.

Lemma sum_total_invoices_nil formatCurrency (customers : list Customer) :
  sum_total_invoices (map (customer_summary formatCurrency []) customers) = 0.
Proof.
  induction customers as [|customer customers IH]; cbn; [done|].
  cbn in IH. by rewrite IH.
Qed.

(** One more invoice adds one to the count of each customer carrying its
    owner's identifier. *)
Lemma sum_total_invoices_cons formatCurrency (inv : CustomerInvoice)
    (invoices : list CustomerInvoice) (customers : list Customer) :
  sum_total_invoices (map (customer_summary formatCurrency (inv :: invoices)) customers) =
  Z.of_nat (length (List.filter
                      (fun customer => String.eqb (cinv_customer_id inv) (c_id customer))
                      customers))
  + sum_total_invoices (map (customer_summary formatCurrency invoices) customers).
Proof.
  induction customers as [|customer customers IH];
    cbn [map sum_total_invoices List.filter length]; [done|].
  rewrite IH. cbn [customer_summary ct_total_invoices invoices_of].
  destruct (String.eqb (cinv_customer_id inv) (c_id customer)); cbn [length]; lia.
Qed.

Lemma owners_at_most_one (id : string) (customers : list Customer) :
  NoDup (map c_id customers) ->
  (length (List.filter (fun customer => String.eqb id (c_id customer)) customers)
   <= 1)%nat /\
  (id ∈ map c_id customers ->
   length (List.filter (fun customer => String.eqb id (c_id customer)) customers)
   = 1%nat).
Proof.
  induction customers as [|customer customers IH]; intros Hnodup;
    cbn [map List.filter length].
  - split; [lia|]. intros Hin. inversion Hin.
  - cbn [map] in Hnodup. apply NoDup_cons in Hnodup as [Hfresh Hnodup].
    destruct (IH Hnodup) as [Hle Heq].
    destruct (String.eqb id (c_id customer)) eqn:Hid; cbn [length].
    + apply String.eqb_eq in Hid. subst id.
      assert (Hzero : length (List.filter
                (fun customer0 => String.eqb (c_id customer) (c_id customer0))
                customers) = 0%nat).
      { destruct (List.filter _ customers) as [|other rest] eqn:Hf; [done|].
        exfalso. apply Hfresh.
        assert (Hother : In other (List.filter
                  (fun customer0 => String.eqb (c_id customer) (c_id customer0))
                  customers)) by (rewrite Hf; by left).
        apply filter_In in Hother as [Hin Hsame]. apply String.eqb_eq in Hsame.
        rewrite Hsame. apply list_elem_of_fmap. exists other.
        split; [done|]. by apply list_elem_of_In. }
      rewrite Hzero. split; [lia | done].
    + split; [done|]. intros Hin. apply Heq.
      apply elem_of_cons in Hin as [-> | Hin]; [|done].
      by rewrite String.eqb_refl in Hid.
Qed.

(** X21. When the matched customers have pairwise distinct identifiers and
    both reads succeed, the invoice counts of the returned rows never add up
    to more than the number of fetched invoices, and they add up to exactly
    that number when every fetched invoice belongs to a matched customer (as
    the second read asks): every invoice is counted once. *)
Theorem fetchFilteredCustomers_counts_each_invoice_once formatCurrency (c : client)
    (query : string) (r : response (list Customer))
    (ri : response (list CustomerInvoice)) (customers : list Customer)
    (invoices : list CustomerInvoice) :
  c (CustomersMatching
       ("name.ilike.%" +:+ query +:+ "%,email.ilike.%" +:+ query +:+ "%")) = Resolved r ->
  error r = None ->
  data r = Some customers ->
  c (InvoicesOfCustomers (map c_id customers)) = Resolved ri ->
  error ri = None ->
  data ri = Some invoices ->
  NoDup (map c_id customers) ->
  exists out : list CustomersTableType,
    result (fetchFilteredCustomers formatCurrency query c) = Return out /\
    sum_total_invoices out <= Z.of_nat (length invoices) /\
    ((forall inv, inv ∈ invoices -> cinv_customer_id inv ∈ map c_id customers) ->
     sum_total_invoices out = Z.of_nat (length invoices)).
Proof.
  intros Hc Herr Hdata Hci Hcierr Hcidata Hnodup. eexists.
  split; [by apply (fetchFilteredCustomers_returns _ c query r ri customers invoices)|].
  clear Hc Herr Hdata Hci Hcierr Hcidata.
  induction invoices as [|inv invoices [IHle IHeq]].
  - rewrite sum_total_invoices_nil. split; [done|]. done.
  - rewrite sum_total_invoices_cons. cbn [length].
    destruct (owners_at_most_one (cinv_customer_id inv) customers Hnodup)
      as [Hle Hone].
    split; [lia|]. intros Howned.
    rewrite Hone by apply Howned, list_elem_of_here.
    rewrite IHeq; [lia|].
    intros inv' Hin. apply Howned. by apply list_elem_of_further.
Qed.

Lemma fetchFilteredCustomers_counts_each_invoice_once_witness :
  exists out : list CustomersTableType,
    result (fetchFilteredCustomers Js.toString "o" (serve two_customer_tables))
      = Return out /\
    sum_total_invoices out = 3.
Proof.
  assert (Hnodup : NoDup (map c_id (tb_customers two_customer_tables))).
  { cbn. repeat constructor.
    - intros Hin. apply list_elem_of_In in Hin. cbn in Hin.
      destruct Hin as [Heq | []]. discriminate Heq.
    - intros Hin. inversion Hin. }
  destruct (fetchFilteredCustomers_counts_each_invoice_once Js.toString
              (serve two_customer_tables) "o"
              (mkResponse (Some (tb_customers two_customer_tables)) None None)
              (mkResponse (Some (tb_customer_invoices two_customer_tables)) None None)
              (tb_customers two_customer_tables)
              (tb_customer_invoices two_customer_tables)
              eq_refl eq_refl eq_refl eq_refl eq_refl eq_refl Hnodup)
    as (out & Hres & _ & Hsum).
  exists out. split; [exact Hres|]. apply Hsum.
  intros inv Hin. apply list_elem_of_In in Hin. cbn in Hin.
  destruct Hin as [<- | [<- | [<- | []]]]; apply list_elem_of_here.
Defined.

(** ** Rejected promises *)

(** X22. The readers without a [try] block do not wrap a rejected promise:
    when the client rejects their first read, the latest-invoices,
    card-summary, filtered-invoices, page-count, all-customers and
    filtered-customers readers each let the original cause through unchanged
    and write nothing to the console. *)
Theorem rejection_passes_through formatCurrency (c : client) (query : string) (p : Z)
    (cause : db_error) :
  (c (InvoicesLatest 100) = Rejected cause ->
   fetchLatestInvoices formatCurrency c =
     ([Query (InvoicesLatest 100)], Throw (Rejection cause))) /\
  (c InvoicesAmountStatus = Rejected cause ->
   fetchCardData c = ([Query InvoicesAmountStatus], Throw (Rejection cause))) /\
  (c (InvoicesRange ("%" +:+ query +:+ "%") ((p - 1) * 6) ((p - 1) * 6 + 6 - 1))
     = Rejected cause ->
   fetchFilteredInvoices query p c =
     ([Query (InvoicesRange ("%" +:+ query +:+ "%") ((p - 1) * 6)
                ((p - 1) * 6 + 6 - 1))],
      Throw (Rejection cause))) /\
  (c (InvoicesHeadCount ("%" +:+ query +:+ "%")) = Rejected cause ->
   fetchInvoicesPages query c =
     ([Query (InvoicesHeadCount ("%" +:+ query +:+ "%"))], Throw (Rejection cause))) /\
  (c CustomersByName = Rejected cause ->
   fetchCustomers c = ([Query CustomersByName], Throw (Rejection cause))) /\
  (c (CustomersMatching
        ("name.ilike.%" +:+ query +:+ "%,email.ilike.%" +:+ query +:+ "%"))
     = Rejected cause ->
   fetchFilteredCustomers formatCurrency query c =
     ([Query (CustomersMatching
                ("name.ilike.%" +:+ query +:+ "%,email.ilike.%" +:+ query +:+ "%"))],
      Throw (Rejection cause))).
Proof.
  repeat split; intros Hc.
  - unfold fetchLatestInvoices. step_reader. by rewrite Hc.
  - unfold fetchCardData. step_reader. by rewrite Hc.
  - unfold fetchFilteredInvoices, ITEMS_PER_PAGE. step_reader. by rewrite Hc.
  - unfold fetchInvoicesPages. step_reader. by rewrite Hc.
  - unfold fetchCustomers. step_reader. by rewrite Hc.
  - unfold fetchFilteredCustomers. step_reader. by rewrite Hc.
Qed.
